(** * Plan2Rendering: the image lineage state machine and the generation client

    A shallow embedding of [src/services/gemini.ts] (the Generation Client,
    [generateImage]) and of the state logic of the [App] component
    ([clearSourceImage], [handleGenerate], [activeImageUrl] and the click
    handlers of the JSX), with the properties the specification states about
    them.

    JavaScript values are modelled as follows.
    - A string is the list of its UTF-16 code units ([jsstring]).
    - A state cell of type [string | null] is an [option jsstring], [None]
      being [null]; an optional parameter or field is an [option], [None]
      being [undefined] (the field is absent).  The code tests these values
      for truthiness, compares them with a string or passes them to [||],
      none of which tells [null] from [undefined].
    - The two fields of an inline-data blob are printed by a template
      literal, which does tell them apart: they are [value]s.
    - A promise that settles is a [completion]: it fulfils with a value or
      rejects with a thrown value.
    - [Date.now()] is an integer handed in by the environment. *)

From Stdlib Require Import List ZArith NArith Bool String Ascii Lia.
From Stdlib Require Decimal DecimalPos DecimalZ.
Import ListNotations.

Local Open Scope N_scope.

(* ================================================================= *)
(** ** Strings *)

Module JS.

Definition jsstring := list N.

(** A literal of the source text, as code units. *)
Definition lit (s : string) : jsstring :=
  map N_of_ascii (list_ascii_of_string s).

(** [a === b] on strings. *)
Fixpoint eqb (a b : jsstring) : bool :=
  match a, b with
  | [], [] => true
  | x :: a', y :: b' => N.eqb x y && eqb a' b'
  | _, _ => false
  end.

(** [a === b] for values that are a string or absent; in the code one side
    is always a string. *)
Definition strict_eq (a b : option jsstring) : bool :=
  match a, b with
  | Some x, Some y => eqb x y
  | None, None => true
  | _, _ => false
  end.

(** Truthiness of a value that is a string, [null] or [undefined]:
    only a non-empty string is truthy. *)
Definition truthy (v : option jsstring) : bool :=
  match v with
  | Some (_ :: _) => true
  | _ => false
  end.

(** [a || b]. *)
Definition or_else (a b : option jsstring) : option jsstring :=
  if truthy a then a else b.

(** [s.split(sep)] for a one-code-unit separator: never an empty array. *)
Fixpoint split (sep : N) (s : jsstring) : list jsstring :=
  match s with
  | [] => [[]]
  | c :: r =>
      if N.eqb c sep then [] :: split sep r
      else match split sep r with
           | [] => [[c]]
           | h :: t => (c :: h) :: t
           end
  end.

(** The text before the first separator. *)
Fixpoint before (sep : N) (s : jsstring) : jsstring :=
  match s with
  | [] => []
  | c :: r => if N.eqb c sep then [] else c :: before sep r
  end.

(** WhiteSpace and LineTerminator code points of ECMAScript, all of which
    are single code units: TAB, LF, VT, FF, CR, SP, NBSP, U+1680,
    U+2000..U+200A, U+2028, U+2029, U+202F, U+205F, U+3000, U+FEFF. *)
Definition is_white (c : N) : bool :=
  (N.leb 9 c && N.leb c 13) || N.eqb c 32 || N.eqb c 160 || N.eqb c 5760
  || (N.leb 8192 c && N.leb c 8202) || N.eqb c 8232 || N.eqb c 8233
  || N.eqb c 8239 || N.eqb c 8287 || N.eqb c 12288 || N.eqb c 65279.

Fixpoint trimStart (s : jsstring) : jsstring :=
  match s with
  | [] => []
  | c :: r => if is_white c then trimStart r else s
  end.

Definition trimEnd (s : jsstring) : jsstring := rev (trimStart (rev s)).

(** [s.trim()]. *)
Definition trim (s : jsstring) : jsstring := trimEnd (trimStart s).

(** The decimal digits of a numeral, most significant first. *)
Fixpoint digits (d : Decimal.uint) : jsstring :=
  match d with
  | Decimal.Nil => []
  | Decimal.D0 r => 48 :: digits r
  | Decimal.D1 r => 49 :: digits r
  | Decimal.D2 r => 50 :: digits r
  | Decimal.D3 r => 51 :: digits r
  | Decimal.D4 r => 52 :: digits r
  | Decimal.D5 r => 53 :: digits r
  | Decimal.D6 r => 54 :: digits r
  | Decimal.D7 r => 55 :: digits r
  | Decimal.D8 r => 56 :: digits r
  | Decimal.D9 r => 57 :: digits r
  end.

(** [n.toString()] for an integer [n] in the range of [Date.now()]
    (below 10^21 in magnitude, where JavaScript prints plain decimals). *)
Definition Number_toString (n : Z) : jsstring :=
  match Z.to_int n with
  | Decimal.Pos d => digits d
  | Decimal.Neg d => 45 :: digits d
  end.

(** A value that is [undefined], [null] or a string. *)
Inductive value :=
| undefined
| null
| str (s : jsstring).

(** [a[k]] on an array of strings: [undefined] past its end. *)
Definition index (a : list jsstring) (k : nat) : value :=
  match nth_error a k with
  | Some s => str s
  | None => undefined
  end.

(** Interpolation [${v}] in a template literal. *)
Definition interpolate (v : value) : jsstring :=
  match v with
  | str s => s
  | null => lit "null"
  | undefined => lit "undefined"
  end.

End JS.

Import JS.

(* ================================================================= *)
(** ** Completions *)

(** What can be thrown on the generation path. *)
Inductive thrown :=
| Error (message : jsstring)
    (** [throw new Error(message)] *)
| TypeError (property : jsstring)
    (** raised by the language when [property] is read from [undefined] *)
| Rejection (message : option jsstring)
    (** any other value the endpoint's promise rejects with, except
        [undefined] and [null]; only its [message] is ever read, which is a
        string or absent *)
| Nullish.
    (** the endpoint's promise rejects with [undefined] or [null] *)

Inductive completion (A : Type) :=
| Return (v : A)
| Throw (e : thrown).
Arguments Return {A} v.
Arguments Throw {A} e.

(** [err.message]; reading it from [undefined] or [null] throws. *)
Definition message_of (e : thrown) : completion (option jsstring) :=
  match e with
  | Error m => Return (Some m)
  | TypeError p =>
      Return (Some (lit "Cannot read properties of undefined (reading '"
                      ++ p ++ lit "')"))
  | Rejection m => Return m
  | Nullish => Throw (TypeError (lit "message"))
  end.

(* ================================================================= *)
(** ** The Generation Client ([src/services/gemini.ts]) *)

(** The request and reply shapes are those of the SDK, in which every field
    is optional; only the fields the client touches are kept. *)
Record Blob := { data : value; mimeType : value }.
Record Part := { inlineData : option Blob; text : option jsstring }.
Record Content := { parts : option (list Part) }.
Record Candidate := { content : option Content }.
Record GenerateContentResponse := { candidates : option (list Candidate) }.
Record GenerateContentParameters := { model : jsstring; contents : Content }.

(** The external endpoint: [ai.models.generateContent]. *)
Definition endpoint :=
  GenerateContentParameters -> completion GenerateContentResponse.

Definition comma : N := 44.
Definition colon : N := 58.
Definition semicolon : N := 59.

(** [{ inlineData: { data, mimeType } }] and [{ text }]. *)
Definition inline_part (mime payload : jsstring) : Part :=
  {| inlineData := Some {| data := str payload; mimeType := str mime |};
     text := None |}.

Definition text_part (t : jsstring) : Part :=
  {| inlineData := None; text := Some t |}.

(** The argument of [generateContent] (lines 23-28). *)
Definition the_request (ps : list Part) : GenerateContentParameters :=
  {| model := lit "gemini-2.5-flash-image";
     contents := {| parts := Some ps |} |}.

(** Lines 9-16: the inline-image part built from a truthy [baseImage].
    [prefix.split(':')[1]] is [undefined] when the prefix holds no colon,
    and reading [split] from it raises a [TypeError]. *)
Definition image_part (baseImage : jsstring) : completion Part :=
  match split comma baseImage with
  | [] => Throw (TypeError (lit "split"))
  | prefix :: rest =>
      let base64Data := index rest 0 in
      match nth_error (split colon prefix) 1 with
      | None => Throw (TypeError (lit "split"))
      | Some segment =>
          let mimeType := index (split semicolon segment) 0 in
          Return {| inlineData := Some {| data := base64Data;
                                          mimeType := mimeType |};
                    text := None |}
      end
  end.

(** Lines 6-21: the ordered parts of the request. *)
Definition request_parts (prompt : jsstring) (baseImage : option jsstring)
  : completion (list Part) :=
  match baseImage with
  | Some (c :: r) =>
      match image_part (c :: r) with
      | Throw e => Throw e
      | Return p => Return [p; text_part prompt]
      end
  | Some [] | None => Return [text_part prompt]
  end.

(** The first part of the list whose [inlineData] is truthy (lines 35-39). *)
Fixpoint first_inline (ps : list Part) : option Blob :=
  match ps with
  | [] => None
  | part :: rest =>
      match inlineData part with
      | Some blob => Some blob
      | None => first_inline rest
      end
  end.

(** Lines 30-41: what the client makes of a reply. *)
Definition read_reply (response : GenerateContentResponse)
  : completion jsstring :=
  match candidates response with
  | None | Some [] => Throw (Error (lit "No candidates returned"))
  | Some (first :: _) =>
      match content first with
      | None => Throw (TypeError (lit "parts"))
      | Some c =>
          match first_inline (match parts c with Some ps => ps | None => [] end) with
          | Some blob =>
              Return (lit "data:" ++ interpolate (mimeType blob)
                        ++ lit ";base64," ++ interpolate (data blob))
          | None => Throw (Error (lit "No image found in the response"))
          end
      end
  end.

(** [generateImage(prompt, baseImage)]: the requests it submitted to the
    endpoint, in order, and how its promise settles. *)
Definition generateImage (generateContent : endpoint)
    (prompt : jsstring) (baseImage : option jsstring)
  : list GenerateContentParameters * completion jsstring :=
  match request_parts prompt baseImage with
  | Throw e => ([], Throw e)
  | Return ps =>
      let request := the_request ps in
      ([request],
       match generateContent request with
       | Throw e => Throw e
       | Return response => read_reply response
       end)
  end.

(** The error taxonomy of the specification, as the client raises it. *)
Definition NoCandidatesError : thrown := Error (lit "No candidates returned").
Definition NoImageInResponseError : thrown :=
  Error (lit "No image found in the response").
Definition GenerationFailedError (e : thrown) : Prop :=
  exists m, e = Rejection m.

Definition documented (e : thrown) : Prop :=
  e = NoCandidatesError \/ e = NoImageInResponseError \/ GenerationFailedError e.

(** An encoded image: [data:<mime>;base64,<payload>]. *)
Definition encoded_image (mime payload : jsstring) : jsstring :=
  lit "data:" ++ mime ++ lit ";base64," ++ payload.

(** A data URI, [data:<mime>;<params>,<payload>]; an encoded image is the
    one whose parameters are [base64]. *)
Definition data_uri (mime params payload : jsstring) : jsstring :=
  lit "data:" ++ mime ++ semicolon :: params ++ comma :: payload.

(* ================================================================= *)
(** ** The application state ([App]) *)

Module DesignIteration.
Record t := {
  id : jsstring;
  imageUrl : jsstring;
  prompt : jsstring;
  timestamp : Z;
  parentId : option jsstring
}.
End DesignIteration.

Record AppState := {
  sourceImage : option jsstring;
  iterations : list DesignIteration.t;
  activeId : option jsstring;
  prompt : jsstring;
  isGenerating : bool;
  error : option jsstring
}.

(** The initial values of the [useState] cells. *)
Definition initial : AppState :=
  {| sourceImage := None; iterations := []; activeId := None;
     prompt := []; isGenerating := false; error := None |}.

Definition setSourceImage (v : option jsstring) (s : AppState) : AppState :=
  {| sourceImage := v; iterations := iterations s; activeId := activeId s;
     prompt := prompt s; isGenerating := isGenerating s; error := error s |}.
Definition setIterations (f : list DesignIteration.t -> list DesignIteration.t)
    (s : AppState) : AppState :=
  {| sourceImage := sourceImage s; iterations := f (iterations s);
     activeId := activeId s; prompt := prompt s;
     isGenerating := isGenerating s; error := error s |}.
Definition setActiveId (v : option jsstring) (s : AppState) : AppState :=
  {| sourceImage := sourceImage s; iterations := iterations s; activeId := v;
     prompt := prompt s; isGenerating := isGenerating s; error := error s |}.
Definition setPrompt (v : jsstring) (s : AppState) : AppState :=
  {| sourceImage := sourceImage s; iterations := iterations s;
     activeId := activeId s; prompt := v;
     isGenerating := isGenerating s; error := error s |}.
Definition setIsGenerating (v : bool) (s : AppState) : AppState :=
  {| sourceImage := sourceImage s; iterations := iterations s;
     activeId := activeId s; prompt := prompt s;
     isGenerating := v; error := error s |}.
Definition setError (v : option jsstring) (s : AppState) : AppState :=
  {| sourceImage := sourceImage s; iterations := iterations s;
     activeId := activeId s; prompt := prompt s;
     isGenerating := isGenerating s; error := v |}.

Definition source : jsstring := lit "source".

(** [iterations.find(i => i.id === key)]. *)
Definition find_iteration (key : option jsstring) (l : list DesignIteration.t)
  : option DesignIteration.t :=
  find (fun i => strict_eq (Some (DesignIteration.id i)) key) l.

(** The [onload] callback of [handleImageUpload] (lines 34-38). *)
Definition imageLoaded (dataUrl : jsstring) (s : AppState) : AppState :=
  setActiveId (Some source) (setSourceImage (Some dataUrl) s).

(** Lines 47-52. *)
Definition clearSourceImage (s : AppState) : AppState :=
  let s' := setSourceImage None s in
  if strict_eq (activeId s) (Some source) then
    setActiveId (match iterations s with
                 | newest :: _ => Some (DesignIteration.id newest)
                 | [] => None
                 end) s'
  else s'.

(** Lines 64-74: the image the generation starts from. *)
Definition baseImage_of (s : AppState) : option jsstring :=
  if strict_eq (activeId s) (Some source) && truthy (sourceImage s) then
    sourceImage s
  else if truthy (activeId s) then
    match find_iteration (activeId s) (iterations s) with
    | Some activeIteration => Some (DesignIteration.imageUrl activeIteration)
    | None => None
    end
  else if truthy (sourceImage s) then sourceImage s
  else None.

(** What a running [handleGenerate] holds on to across its [await]: the
    arguments of the pending [generateImage] call and the [activeId] of the
    render it was started from. *)
Record Call := {
  call_prompt : jsstring;
  call_baseImage : option jsstring;
  call_activeId : option jsstring
}.

(** [handleGenerate] up to the [await] (lines 55-76): the state it leaves
    and the client call it is waiting for, if it made one. *)
Definition handleGenerate_begin (s : AppState) : AppState * option Call :=
  if negb (truthy (Some (trim (prompt s)))) then
    (setError (Some (lit "Please enter a prompt.")) s, None)
  else
    (setError None (setIsGenerating true s),
     Some {| call_prompt := prompt s;
             call_baseImage := baseImage_of s;
             call_activeId := activeId s |}).

(** The iteration of lines 78-84; the two calls of [Date.now()] are the two
    clock readings. *)
Definition newIteration (c : Call) (newImageUrl : jsstring) (now_id now_ts : Z)
  : DesignIteration.t :=
  {| DesignIteration.id := Number_toString now_id;
     DesignIteration.imageUrl := newImageUrl;
     DesignIteration.prompt := call_prompt c;
     DesignIteration.timestamp := now_ts;
     DesignIteration.parentId := or_else (call_activeId c) None |}.

(** [handleGenerate] from the [await] on (lines 76-93), run on the state
    found when the client call settles.  When reading [err.message] throws,
    the [catch] block ends before [setError]; the [finally] block runs in
    every case. *)
Definition handleGenerate_resume (c : Call) (settled : completion jsstring)
    (now_id now_ts : Z) (s : AppState) : AppState :=
  setIsGenerating false
    match settled with
    | Return newImageUrl =>
        let it := newIteration c newImageUrl now_id now_ts in
        setActiveId (Some (DesignIteration.id it))
          (setIterations (fun prev => it :: prev) s)
    | Throw err =>
        match message_of err with
        | Return message =>
            setError (or_else message
                        (Some (lit "Failed to generate image."))) s
        | Throw _ => s
        end
    end.

(** [handleGenerate] with nothing happening in between: the final state and
    the requests that reached the endpoint. *)
Definition handleGenerate (generateContent : endpoint) (now_id now_ts : Z)
    (s : AppState) : AppState * list GenerateContentParameters :=
  match handleGenerate_begin s with
  | (s1, None) => (s1, [])
  | (s1, Some c) =>
      let (requests, settled) :=
        generateImage generateContent (call_prompt c) (call_baseImage c) in
      (handleGenerate_resume c settled now_id now_ts s1, requests)
  end.

(** Lines 96-98. *)
Definition activeImageUrl (s : AppState) : option jsstring :=
  if strict_eq (activeId s) (Some source) then sourceImage s
  else or_else
         (option_map DesignIteration.imageUrl
            (find_iteration (activeId s) (iterations s)))
         (sourceImage s).

(* ================================================================= *)
(** ** The page as a transition system *)

(** The page between two events: the state cells and the client calls that
    have not settled yet. *)
Record Page := { ui : AppState; inflight : list Call }.

Definition boot : Page := {| ui := initial; inflight := [] |}.

(** What can happen to the page.  The button that runs [handleGenerate] is
    disabled while [isGenerating] is set or the prompt is blank; the model
    does not rely on it, and so allows more runs than the page does. *)
Inductive event :=
| FileLoaded (dataUrl : jsstring)
    (** the [FileReader] of [handleImageUpload] has finished *)
| ClickClear
    (** the Clear button, rendered while [sourceImage] is truthy *)
| ClickSource
    (** a source thumbnail, rendered while [sourceImage] is truthy *)
| ClickIteration (k : nat)
    (** the [k]-th entry of the history strip *)
| TypePrompt (p : jsstring)
    (** the text area or a quick prompt *)
| ClickGenerate
    (** [handleGenerate] runs up to its [await] *)
| Settled (k : nat) (generateContent : endpoint) (now_id now_ts : Z).
    (** the [k]-th pending client call settles and [handleGenerate]
        runs to its end *)

Fixpoint remove_nth {A} (k : nat) (l : list A) : list A :=
  match l, k with
  | [], _ => []
  | _ :: r, O => r
  | x :: r, S k' => x :: remove_nth k' r
  end.

Definition step (e : event) (p : Page) : Page :=
  let s := ui p in
  match e with
  | FileLoaded dataUrl =>
      {| ui := imageLoaded dataUrl s; inflight := inflight p |}
  | ClickClear =>
      if truthy (sourceImage s)
      then {| ui := clearSourceImage s; inflight := inflight p |} else p
  | ClickSource =>
      if truthy (sourceImage s)
      then {| ui := setActiveId (Some source) s; inflight := inflight p |}
      else p
  | ClickIteration k =>
      match nth_error (iterations s) k with
      | Some iteration =>
          {| ui := setActiveId (Some (DesignIteration.id iteration)) s;
             inflight := inflight p |}
      | None => p
      end
  | TypePrompt v => {| ui := setPrompt v s; inflight := inflight p |}
  | ClickGenerate =>
      match handleGenerate_begin s with
      | (s1, Some c) => {| ui := s1; inflight := c :: inflight p |}
      | (s1, None) => {| ui := s1; inflight := inflight p |}
      end
  | Settled k generateContent now_id now_ts =>
      match nth_error (inflight p) k with
      | Some c =>
          let settled :=
            snd (generateImage generateContent
                   (call_prompt c) (call_baseImage c)) in
          {| ui := handleGenerate_resume c settled now_id now_ts s;
             inflight := remove_nth k (inflight p) |}
      | None => p
      end
  end.

Definition run (evs : list event) (p : Page) : Page :=
  fold_left (fun q e => step e q) evs p.

Definition reachable (s : AppState) : Prop :=
  exists evs, ui (run evs boot) = s.

(** The clock readings that became iteration ids along a run, oldest
    first. *)
Definition id_readings (evs : list event) : list Z :=
  flat_map (fun e => match e with
                     | Settled _ _ now_id _ => [now_id]
                     | _ => []
                     end) evs.

(** An endpoint that always answers with one candidate holding the given
    parts. *)
Definition answering (ps : list Part) : endpoint :=
  fun _ => Return {| candidates :=
                       Some [ {| content := Some {| parts := Some ps |} |} ] |}.

Definition ids (l : list DesignIteration.t) : list jsstring :=
  map DesignIteration.id l.

(* ================================================================= *)
(** ** Invariants of the page *)

(** The selection is empty, the source (which is then present), or the id
    of a stored iteration. *)
Definition selection_ok (s : AppState) : Prop :=
  match activeId s with
  | None => True
  | Some a =>
      (a = source /\ sourceImage s <> None) \/ In a (ids (iterations s))
  end.

(** A reference held by a pending call points at the source or at a stored
    iteration. *)
Definition reference_ok (l : list DesignIteration.t) (r : option jsstring)
  : Prop :=
  match r with
  | None => True
  | Some a => a = source \/ In a (ids l)
  end.

(** [rooted l r]: followed through the iterations [l] that existed when it
    was made, the parent reference [r] reaches a root - the source or an
    iteration without parent - after finitely many steps, each one to a
    strictly older iteration. *)
Inductive rooted : list DesignIteration.t -> option jsstring -> Prop :=
| rooted_absent l : rooted l None
| rooted_source l : rooted l (Some source)
| rooted_parent newer it older :
    rooted older (DesignIteration.parentId it) ->
    rooted (newer ++ it :: older) (Some (DesignIteration.id it)).

(** Every stored iteration's parent reference is rooted in the iterations
    older than itself (the list is newest first). *)
Fixpoint lineage (l : list DesignIteration.t) : Prop :=
  match l with
  | [] => True
  | it :: older => rooted older (DesignIteration.parentId it) /\ lineage older
  end.

Definition numbered (l : list DesignIteration.t) : Prop :=
  Forall (fun it => exists n, DesignIteration.id it = Number_toString n) l.

Record invariant (p : Page) : Prop := {
  inv_selection : selection_ok (ui p);
  inv_numbered : numbered (iterations (ui p));
  inv_lineage : lineage (iterations (ui p));
  inv_inflight :
    Forall (fun c => reference_ok (iterations (ui p)) (call_activeId c))
      (inflight p)
}.

(* ================================================================= *)
(** ** Concrete runs *)

Definition imageA : jsstring := encoded_image (lit "image/png") (lit "AAAA").
Definition imageB : jsstring := encoded_image (lit "image/jpeg") (lit "BBBB").

(** A source image is loaded and a prompt typed. *)
Definition ready : AppState :=
  ui (run [FileLoaded imageA; TypePrompt (lit "Add plants")] boot).

Definition ready_call : Call :=
  {| call_prompt := lit "Add plants";
     call_baseImage := Some imageA;
     call_activeId := Some source |}.

(** Two generations succeed, one after the other, and the clock reads the
    same millisecond at both: [Date.now()] is the wall clock, and nothing
    makes it advance from one reading to the next. *)
Definition same_millisecond : list event :=
  let reply := answering [inline_part (lit "image/jpeg") (lit "BBBB")] in
  [TypePrompt (lit "Add plants");
   ClickGenerate; Settled 0 reply 1000 1000;
   ClickGenerate; Settled 0 reply 1000 1000].

(** The scenario of the specification: image A is uploaded, "Add plants"
    yields image B, then "Make it blue" yields image C. *)
Definition imageC : jsstring := encoded_image (lit "image/jpeg") (lit "CCCC").

Definition scenario : list event :=
  [FileLoaded imageA;
   TypePrompt (lit "Add plants"); ClickGenerate;
   Settled 0 (answering [text_part (lit "Here it is");
                         inline_part (lit "image/jpeg") (lit "BBBB")])
     1000 1001;
   TypePrompt (lit "Make it blue"); ClickGenerate;
   Settled 0 (answering [inline_part (lit "image/jpeg") (lit "CCCC")])
     2000 2001].

(** The same state with a prompt of two spaces and a tab. *)
Definition blank : AppState := setPrompt [32; 32; 9] ready.

(** A reply whose only candidate carries no content object. *)
Definition bare_candidate : endpoint :=
  fun _ => Return {| candidates := Some [ {| content := None |} ] |}.

(* ================================================================= *)
(** ** The generate button *)

(** Line 199: [disabled={isGenerating || !prompt.trim()}]. *)
Definition generateDisabled (s : AppState) : bool :=
  isGenerating s || negb (truthy (Some (trim (prompt s)))).

(** An event the page offers: every event of [step], except a click on the
    generate button while it is disabled. *)
Definition offered (e : event) (p : Page) : bool :=
  match e with
  | ClickGenerate => negb (generateDisabled (ui p))
  | _ => true
  end.

Definition press (e : event) (p : Page) : Page :=
  if offered e p then step e p else p.

(** A run of the page as the user can drive it. *)
Definition browse (evs : list event) (p : Page) : Page :=
  fold_left (fun q e => press e q) evs p.

(** Line 210: the caption of the generate button while idle. *)
Definition buttonLabel (s : AppState) : jsstring :=
  if truthy (activeId s) && negb (strict_eq (activeId s) (Some source))
  then lit "Edit Image" else lit "Generate Design".

(** Line 228: the canvas shows an image rather than the placeholder. *)
Definition canvasShowsImage (s : AppState) : bool :=
  truthy (activeImageUrl s).

(* ================================================================= *)
(** ** Data URLs *)

(** A string that starts with [data:], as [readAsDataURL] and
    [generateImage] produce them. *)
Definition is_data_url (s : jsstring) : Prop :=
  exists rest, s = lit "data:" ++ rest.

Definition data_url_or_absent (v : option jsstring) : Prop :=
  match v with
  | None => True
  | Some s => is_data_url s
  end.

(** Every file read along the run came out as a data URL. *)
Definition uploads_data_urls (evs : list event) : Prop :=
  forall d, In (FileLoaded d) evs -> is_data_url d.

(** Every stored image is a data URL. *)
Definition generated (l : list DesignIteration.t) : Prop :=
  Forall (fun it => is_data_url (DesignIteration.imageUrl it)) l.

Record decodable (p : Page) : Prop := {
  dec_source : data_url_or_absent (sourceImage (ui p));
  dec_iterations : generated (iterations (ui p));
  dec_inflight :
    Forall (fun c => data_url_or_absent (call_baseImage c)) (inflight p)
}.

(** What every stored iteration looks like: its image is a data URL, its
    prompt is not blank and its id is a decimal numeral. *)
Definition well_formed (it : DesignIteration.t) : Prop :=
  is_data_url (DesignIteration.imageUrl it) /\
  trim (DesignIteration.prompt it) <> [] /\
  exists n, DesignIteration.id it = Number_toString n.

Record kept (p : Page) : Prop := {
  kept_iterations : Forall well_formed (iterations (ui p));
  kept_inflight : Forall (fun c => trim (call_prompt c) <> []) (inflight p)
}.

(** At most one client call is pending, and the flag says whether one is. *)
Definition single_flight (p : Page) : Prop :=
  (inflight p = [] /\ isGenerating (ui p) = false) \/
  (exists c, inflight p = [c] /\ isGenerating (ui p) = true).

(** The number of [Settled] events of a run. *)
Definition settlements (evs : list event) : nat :=
  List.length (id_readings evs).

(** The first iteration of the scenario. *)
Definition iterationB : DesignIteration.t :=
  {| DesignIteration.id := lit "1000";
     DesignIteration.imageUrl := imageB;
     DesignIteration.prompt := lit "Add plants";
     DesignIteration.timestamp := 1001;
     DesignIteration.parentId := Some source |}.



(** A page whose source image is not a data URL. *)
Definition malformed : AppState :=
  ui (run [FileLoaded (lit "not-a-data-uri"); TypePrompt (lit "Add plants")]
        boot).

(** A reply with a text part, then two images, and a second candidate. *)
Definition two_images : GenerateContentResponse :=
  {| candidates :=
       Some [ {| content :=
                   Some {| parts :=
                             Some [text_part (lit "Here it is");
                                   inline_part (lit "image/jpeg") (lit "BBBB");
                                   inline_part (lit "image/png") (lit "CCCC")] |} |};
              {| content := None |} ] |}.

(** An endpoint that always sends the given reply. *)
Definition replying (response : GenerateContentResponse) : endpoint :=
  fun _ => Return response.

(** A reply without candidates. *)
Definition no_candidates : GenerateContentResponse :=
  {| candidates := Some [] |}.

(** A reply whose first image declares its mime type as [null]. *)
Definition null_mime : GenerateContentResponse :=
  {| candidates :=
       Some [ {| content :=
                   Some {| parts :=
                             Some [text_part (lit "Here it is");
                                   {| inlineData :=
                                        Some {| data := str (lit "QQ==");
                                                mimeType := null |};
                                      text := None |};
                                   inline_part (lit "image/png") (lit "CCCC")] |} |};
              {| content := None |} ] |}.

(** A reply whose candidate has a content object without parts. *)
Definition no_parts : GenerateContentResponse :=
  {| candidates := Some [ {| content := Some {| parts := None |} |} ] |}.

(* ================================================================= *)
(** ** Facts about strings *)

Section Strings.

Lemma eqb_eq (a b : jsstring) : JS.eqb a b = true <-> a = b.
Proof.
  revert b; induction a as [|x a IH]; intros [|y b]; simpl;
    try (split; [discriminate | discriminate ]); try tauto.
  rewrite andb_true_iff, N.eqb_eq, IH.
  split; [intros [-> ->]; reflexivity | intros H; inversion H; auto].
Qed.

Lemma eqb_refl (a : jsstring) : JS.eqb a a = true.
Proof. apply eqb_eq; reflexivity. Qed.

Lemma strict_eq_eq (a b : option jsstring) : strict_eq a b = true <-> a = b.
Proof.
  destruct a as [a|], b as [b|]; simpl;
    try (split; [discriminate | discriminate ]); try tauto.
  rewrite eqb_eq; split; [intros -> | intros H; inversion H]; reflexivity.
Qed.

Lemma strict_eq_neq (a b : option jsstring) : strict_eq a b = false <-> a <> b.
Proof.
  rewrite <- strict_eq_eq. destruct (strict_eq a b); split; congruence.
Qed.

Lemma truthy_true (v : option jsstring) :
  truthy v = true <-> exists c r, v = Some (c :: r).
Proof.
  destruct v as [[|c r]|]; simpl; split; try discriminate; eauto;
    intros (c' & r' & H); discriminate.
Qed.

Lemma truthy_false (v : option jsstring) :
  truthy v = false <-> v = None \/ v = Some [].
Proof.
  destruct v as [[|c r]|]; simpl; split; auto; try discriminate;
    intros [H|H]; discriminate.
Qed.

(** *** [split] *)

Lemma split_no_sep (sep : N) (a : jsstring) :
  ~ In sep a -> split sep a = [a].
Proof.
  induction a as [|c a IH]; simpl; intros H; [reflexivity|].
  destruct (N.eqb_spec c sep) as [->|_]; [tauto|].
  rewrite IH by tauto. reflexivity.
Qed.

Lemma split_at_sep (sep : N) (a b : jsstring) :
  ~ In sep a -> split sep (a ++ sep :: b) = a :: split sep b.
Proof.
  induction a as [|c a IH]; simpl; intros H.
  - rewrite N.eqb_refl. reflexivity.
  - destruct (N.eqb_spec c sep) as [->|_]; [tauto|].
    rewrite IH by tauto. reflexivity.
Qed.

Lemma split_cons (sep : N) (s : jsstring) :
  exists first rest, split sep s = first :: rest.
Proof.
  induction s as [|c s (f & r & IH)]; simpl; eauto.
  destruct (N.eqb c sep); eauto. rewrite IH; eauto.
Qed.

Lemma split_head (sep : N) (s : jsstring) :
  exists rest, split sep s = before sep s :: rest.
Proof.
  induction s as [|c s (r & IH)]; simpl; eauto.
  destruct (N.eqb c sep); eauto. rewrite IH; eauto.
Qed.

Lemma before_app (sep : N) (a b : jsstring) :
  ~ In sep a -> before sep (a ++ b) = a ++ before sep b.
Proof.
  induction a as [|c a IH]; simpl; intros H; [reflexivity|].
  destruct (N.eqb_spec c sep) as [->|_]; [tauto|].
  rewrite IH by tauto. reflexivity.
Qed.

(** *** [trim] *)

Lemma trimStart_blank (s : jsstring) :
  trimStart s = [] <-> forallb is_white s = true.
Proof.
  induction s as [|c s IH]; simpl; [tauto|].
  destruct (is_white c); simpl; [exact IH|].
  split; discriminate.
Qed.

Lemma trimStart_head (s : jsstring) :
  trimStart s = [] \/ exists c r, trimStart s = c :: r /\ is_white c = false.
Proof.
  induction s as [|c s IH]; simpl; auto.
  destruct (is_white c) eqn:E; eauto.
Qed.

Lemma forallb_rev {A} (f : A -> bool) (l : list A) :
  forallb f (rev l) = forallb f l.
Proof.
  induction l as [|x l IH]; simpl; [reflexivity|].
  rewrite forallb_app, IH; simpl. rewrite andb_true_r. apply andb_comm.
Qed.

(** A string trims to nothing exactly when it is empty or holds white
    space only. *)
Lemma trim_blank (s : jsstring) :
  trim s = [] <-> forallb is_white s = true.
Proof.
  unfold trim, trimEnd. split.
  - intros H.
    assert (H1 : trimStart (rev (trimStart s)) = []).
    { apply (f_equal (@rev N)) in H. rewrite rev_involutive in H. exact H. }
    apply trimStart_blank in H1. rewrite forallb_rev in H1.
    destruct (trimStart_head s) as [E|(c & r & E & W)].
    + apply trimStart_blank; exact E.
    + rewrite E in H1; simpl in H1. rewrite W in H1. discriminate.
  - intros H. apply trimStart_blank in H. rewrite H. reflexivity.
Qed.

(** *** [Number.prototype.toString] *)

Lemma digits_inj (d d' : Decimal.uint) : digits d = digits d' -> d = d'.
Proof.
  revert d'; induction d; intros [] H; simpl in H;
    try discriminate; try reflexivity;
    injection H as H; f_equal; auto.
Qed.

Lemma digits_head (d : Decimal.uint) (c : N) (r : jsstring) :
  digits d = c :: r -> 48 <= c <= 57.
Proof. destruct d; simpl; intros H; inversion H; lia. Qed.

Lemma Number_toString_inj (n m : Z) :
  Number_toString n = Number_toString m -> n = m.
Proof.
  unfold Number_toString. intros H. apply DecimalZ.to_int_inj.
  destruct (Z.to_int n) as [d|d], (Z.to_int m) as [d'|d'].
  - f_equal; apply digits_inj; exact H.
  - apply digits_head in H. lia.
  - symmetry in H. apply digits_head in H. lia.
  - injection H as H. f_equal; apply digits_inj; exact H.
Qed.

Lemma Number_toString_head (n : Z) :
  exists c r, Number_toString n = c :: r /\ 45 <= c <= 57.
Proof.
  unfold Number_toString. destruct n as [|p|p]; simpl.
  - exists 48, []. split; [reflexivity | lia].
  - pose proof (DecimalPos.Unsigned.to_uint_nonnil p) as Hn.
    destruct (digits (Pos.to_uint p)) as [|c r] eqn:E.
    + destruct (Pos.to_uint p); simpl in E; congruence.
    + exists c, r. split; [reflexivity|]. apply digits_head in E. lia.
  - exists 45, (digits (Pos.to_uint p)). split; [reflexivity | lia].
Qed.

Lemma Number_toString_truthy (n : Z) : truthy (Some (Number_toString n)) = true.
Proof. destruct (Number_toString_head n) as (c & r & -> & _). reflexivity. Qed.

Lemma Number_toString_not_source (n : Z) : Number_toString n <> source.
Proof.
  destruct (Number_toString_head n) as (c & r & E & Hc). rewrite E.
  unfold source; simpl. intros H. inversion H. subst c. lia.
Qed.

End Strings.

(* ================================================================= *)
(** ** The Generation Client: requests *)

Section Client.

Variable generateContent : endpoint.

(** A base image of data-URI shape decodes to its mime type and payload. *)
Lemma image_part_data_uri (mime params payload : jsstring) :
  ~ In comma mime -> ~ In colon mime -> ~ In semicolon mime ->
  ~ In comma params -> ~ In comma payload ->
  image_part (data_uri mime params payload) = Return (inline_part mime payload).
Proof.
  intros Hc Hk Hs Hq Hp. unfold image_part, data_uri.
  replace (lit "data:" ++ mime ++ semicolon :: params ++ comma :: payload)
    with ((lit "data:" ++ mime ++ semicolon :: params) ++ comma :: payload)
    by (rewrite <- !app_assoc; reflexivity).
  rewrite split_at_sep.
  2:{ rewrite !in_app_iff. intros [H|[H|[H|H]]]; try tauto;
      vm_compute in H; intuition discriminate. }
  rewrite (split_no_sep comma payload Hp). cbn [nth_error].
  change (lit "data:" ++ mime ++ semicolon :: params)
    with (lit "data" ++ colon :: (mime ++ semicolon :: params)).
  rewrite split_at_sep by (vm_compute; intuition discriminate).
  destruct (split_head colon (mime ++ semicolon :: params)) as (rest & ->).
  cbn [nth_error]. rewrite before_app by exact Hk.
  cbn [before]. change (N.eqb semicolon colon) with false. cbv iota.
  rewrite split_at_sep by exact Hs.
  reflexivity.
Qed.

Lemma encoded_image_data_uri (mime payload : jsstring) :
  encoded_image mime payload = data_uri mime (lit "base64") payload.
Proof. reflexivity. Qed.

(** A truthy base image whose text before the first comma holds no colon
    cannot be decoded. *)
Lemma image_part_no_colon (baseImage : jsstring) :
  ~ In colon (before comma baseImage) ->
  image_part baseImage = Throw (TypeError (lit "split")).
Proof.
  intros H. unfold image_part.
  destruct (split_head comma baseImage) as (rest & ->).
  rewrite (split_no_sep colon _ H). reflexivity.
Qed.

Lemma TypeError_undocumented (p : jsstring) : ~ documented (TypeError p).
Proof.
  intros [H|[H|(m & H)]]; discriminate.
Qed.

(** ** The Generation Client: replies *)

Lemma first_inline_spec (ps : list Part) :
  match first_inline ps with
  | Some blob =>
      exists before_it after_it p,
        ps = before_it ++ p :: after_it /\ inlineData p = Some blob /\
        Forall (fun q => inlineData q = None) before_it
  | None => Forall (fun q => inlineData q = None) ps
  end.
Proof.
  induction ps as [|p ps IH]; simpl; [constructor|].
  destruct (inlineData p) as [blob|] eqn:E.
  - exists [], ps, p. auto.
  - destruct (first_inline ps) as [blob|].
    + destruct IH as (b & a & q & -> & Hq & Hb).
      exists (p :: b), a, q. auto.
    + constructor; assumption.
Qed.

(** What the client does with a reply whose first candidate carries a
    content object. *)
Lemma generateImage_reply (prompt : jsstring) (baseImage : option jsstring)
    (ps : list Part) (response : GenerateContentResponse) :
  request_parts prompt baseImage = Return ps ->
  generateContent (the_request ps) = Return response ->
  snd (generateImage generateContent prompt baseImage) = read_reply response.
Proof.
  intros Hp Hr. unfold generateImage. rewrite Hp. cbn [snd].
  fold (the_request ps). rewrite Hr. reflexivity.
Qed.

Lemma read_reply_no_candidates (response : GenerateContentResponse) :
  candidates response = None \/ candidates response = Some [] ->
  read_reply response = Throw NoCandidatesError.
Proof. unfold read_reply. intros [-> | ->]; reflexivity. Qed.

Lemma read_reply_no_image (response : GenerateContentResponse)
    (first : Candidate) (others : list Candidate) (ps : list Part) :
  candidates response = Some (first :: others) ->
  content first = Some {| parts := Some ps |} ->
  Forall (fun q => inlineData q = None) ps ->
  read_reply response = Throw NoImageInResponseError.
Proof.
  unfold read_reply. intros -> -> H. cbn [parts].
  pose proof (first_inline_spec ps) as S.
  destruct (first_inline ps) as [blob|]; [|reflexivity].
  destruct S as (b & a & p & -> & Hp & _).
  apply Forall_elt in H. congruence.
Qed.

Lemma read_reply_image (response : GenerateContentResponse)
    (first : Candidate) (others : list Candidate)
    (texts rest : list Part) (p : Part) (mime payload : jsstring) :
  candidates response = Some (first :: others) ->
  content first = Some {| parts := Some (texts ++ p :: rest) |} ->
  Forall (fun q => inlineData q = None) texts ->
  inlineData p = Some {| data := str payload; mimeType := str mime |} ->
  read_reply response = Return (encoded_image mime payload).
Proof.
  unfold read_reply. intros -> -> H Hp. cbn [parts].
  replace (first_inline (texts ++ p :: rest))
    with (Some {| data := str payload; mimeType := str mime |});
    [reflexivity|].
  induction H as [|q texts Hq _ IH]; simpl.
  - rewrite Hp. reflexivity.
  - rewrite Hq. exact IH.
Qed.

Lemma read_reply_nonempty (response : GenerateContentResponse) (url : jsstring) :
  read_reply response = Return url -> url <> [].
Proof.
  unfold read_reply.
  destruct (candidates response) as [[|first ?]|]; try discriminate.
  destruct (content first) as [c|]; try discriminate.
  destruct (first_inline _); try discriminate.
  intros H; inversion H; discriminate.
Qed.

Lemma generateImage_nonempty (prompt : jsstring) (baseImage : option jsstring)
    (url : jsstring) :
  snd (generateImage generateContent prompt baseImage) = Return url ->
  url <> [].
Proof.
  unfold generateImage.
  destruct (request_parts prompt baseImage) as [ps|e]; cbn [snd];
    [|discriminate].
  destruct (generateContent _) as [response|e]; [|discriminate].
  apply read_reply_nonempty.
Qed.

End Client.

(* ================================================================= *)
(** ** The invariants hold along every run *)

Section Invariants.

Lemma lineage_split (newer older : list DesignIteration.t) it :
  lineage (newer ++ it :: older) ->
  rooted older (DesignIteration.parentId it) /\ lineage older.
Proof.
  induction newer as [|x newer IH]; simpl; [tauto|]. intros [_ H]; auto.
Qed.


Lemma reference_rooted (l : list DesignIteration.t) (r : option jsstring) :
  lineage l -> reference_ok l r -> rooted l (or_else r None).
Proof.
  intros HL HR. destruct r as [[|c a]|]; try apply rooted_absent.
  change (or_else (Some (c :: a)) None) with (Some (c :: a)).
  destruct HR as [->|HR]; [apply rooted_source|].
  apply in_map_iff in HR. destruct HR as (it & <- & Hin).
  apply in_split in Hin. destruct Hin as (newer & older & ->).
  apply rooted_parent. apply (lineage_split newer older it HL).
Qed.

Lemma reference_ok_cons (l : list DesignIteration.t) it r :
  reference_ok l r -> reference_ok (it :: l) r.
Proof. destruct r; simpl; tauto. Qed.

Lemma In_remove_nth {A} (k : nat) (l : list A) (x : A) :
  In x (remove_nth k l) -> In x l.
Proof.
  revert k; induction l as [|y l IH]; intros [|k]; simpl; auto.
  intros [H|H]; eauto.
Qed.

Lemma handleGenerate_begin_call (s s1 : AppState) (c : Call) :
  handleGenerate_begin s = (s1, Some c) ->
  s1 = setError None (setIsGenerating true s) /\
  trim (prompt s) <> [] /\
  call_prompt c = prompt s /\ call_baseImage c = baseImage_of s /\
  call_activeId c = activeId s.
Proof.
  unfold handleGenerate_begin.
  destruct (trim (prompt s)) eqn:E; simpl; intros H; inversion H; subst.
  repeat split; auto; discriminate.
Qed.

Lemma handleGenerate_begin_store (s : AppState) :
  let s1 := fst (handleGenerate_begin s) in
  sourceImage s1 = sourceImage s /\ iterations s1 = iterations s /\
  activeId s1 = activeId s.
Proof.
  unfold handleGenerate_begin.
  destruct (negb _); simpl; auto.
Qed.

Lemma invariant_boot : invariant boot.
Proof. split; simpl; constructor. Qed.

Lemma step_invariant (e : event) (p : Page) :
  invariant p -> invariant (step e p).
Proof.
  intros [Hsel Hnum Hlin Hfl]. unfold selection_ok in Hsel.
  destruct e as [dataUrl| | |k|v| |k gc now_id now_ts]; cbn [step].
  - (* FileLoaded *)
    split; simpl; auto. left; split; [reflexivity | discriminate].
  - (* ClickClear *)
    destruct (truthy (sourceImage (ui p))); [|split; assumption].
    unfold clearSourceImage.
    destruct (strict_eq (activeId (ui p)) (Some source)) eqn:E;
      split; simpl; auto; unfold selection_ok; simpl.
    + destruct (iterations (ui p)); simpl; auto.
    + apply strict_eq_neq in E.
      destruct (activeId (ui p)) as [a|]; [|exact I].
      destruct Hsel as [[-> _]|H]; [congruence | auto].
  - (* ClickSource *)
    destruct (truthy (sourceImage (ui p))) eqn:E; [|split; assumption].
    split; simpl; auto. unfold selection_ok; simpl. left; split; auto.
    apply truthy_true in E. destruct E as (c & r & ->). discriminate.
  - (* ClickIteration *)
    destruct (nth_error (iterations (ui p)) k) as [it|] eqn:E;
      [|split; assumption].
    split; simpl; auto. unfold selection_ok; simpl. right.
    apply in_map. eapply nth_error_In; eassumption.
  - (* TypePrompt *)
    split; simpl; assumption.
  - (* ClickGenerate *)
    pose proof (handleGenerate_begin_store (ui p)) as (Hs & Hi & Ha).
    destruct (handleGenerate_begin (ui p)) as [s1 [c|]] eqn:E;
      cbn [fst] in Hs, Hi, Ha;
      split; cbn [ui inflight]; unfold selection_ok;
      rewrite ?Hs, ?Hi, ?Ha; auto.
    constructor; [|assumption].
    apply handleGenerate_begin_call in E.
    destruct E as (_ & _ & _ & _ & ->).
    unfold reference_ok. destruct (activeId (ui p)); tauto.
  - (* Settled *)
    destruct (nth_error (inflight p) k) as [c|] eqn:E; [|split; assumption].
    assert (Hc : reference_ok (iterations (ui p)) (call_activeId c)).
    { rewrite Forall_forall in Hfl. apply Hfl.
      eapply nth_error_In; eassumption. }
    assert (Hrest : Forall (fun c' =>
              reference_ok (iterations (ui p)) (call_activeId c'))
              (remove_nth k (inflight p))).
    { rewrite Forall_forall in *. intros c' H'. apply Hfl.
      eapply In_remove_nth; eassumption. }
    destruct (snd (generateImage gc (call_prompt c) (call_baseImage c)))
      as [url|[m|q|m|]]; split; simpl; auto; unfold selection_ok; simpl; auto.
    + constructor; [eexists; reflexivity | assumption].
    + split; [|assumption]. apply reference_rooted; assumption.
    + eapply Forall_impl; [|exact Hrest].
      intros c'. apply reference_ok_cons.
Qed.

Lemma run_snoc (evs : list event) (e : event) (p : Page) :
  run (evs ++ [e]) p = step e (run evs p).
Proof. unfold run. rewrite fold_left_app. reflexivity. Qed.

Lemma run_invariant (evs : list event) (p : Page) :
  invariant p -> invariant (run evs p).
Proof.
  revert p; induction evs as [|e evs IH]; intros p H; simpl; auto.
  apply IH, step_invariant, H.
Qed.

Lemma reachable_selection (s : AppState) : reachable s -> selection_ok s.
Proof.
  intros (evs & <-). apply (run_invariant evs boot invariant_boot).
Qed.

Lemma reachable_numbered (s : AppState) :
  reachable s -> numbered (iterations s).
Proof.
  intros (evs & <-). apply (run_invariant evs boot invariant_boot).
Qed.

(** In a reachable state the selection is never the empty string, so
    [activeId || undefined] is [activeId]. *)
Lemma reachable_parent (s : AppState) :
  reachable s -> or_else (activeId s) None = activeId s.
Proof.
  intros H. pose proof (reachable_selection s H) as Hs.
  pose proof (reachable_numbered s H) as Hn.
  unfold selection_ok in Hs.
  destruct (activeId s) as [[|c a]|]; try reflexivity.
  destruct Hs as [[Hs _]|Hs]; [discriminate|].
  apply in_map_iff in Hs. destruct Hs as (it & Hid & Hin).
  unfold numbered in Hn. rewrite Forall_forall in Hn.
  destruct (Hn it Hin) as (n & Hn').
  destruct (Number_toString_head n) as (c & r & E & _). congruence.
Qed.

End Invariants.

(* ================================================================= *)
(** ** The Iteration Store *)

Section Store.

Lemma find_iteration_newest (it : DesignIteration.t)
    (prev : list DesignIteration.t) :
  find_iteration (Some (DesignIteration.id it)) (it :: prev) = Some it.
Proof. unfold find_iteration; simpl. rewrite eqb_refl. reflexivity. Qed.

(** The continuation of a successful generation, on whatever state it
    finds. *)
Lemma handleGenerate_resume_success (c : Call) (newImageUrl : jsstring)
    (now_id now_ts : Z) (s2 : AppState) :
  handleGenerate_resume c (Return newImageUrl) now_id now_ts s2 =
  setIsGenerating false
    (setActiveId (Some (Number_toString now_id))
       (setIterations
          (cons (newIteration c newImageUrl now_id now_ts)) s2)).
Proof. reflexivity. Qed.

(** C1: every successful generation creates exactly one iteration and puts
    it at the front of the list found when the client call settles (so the
    length grows by exactly one), selects it, and records as its parent the
    selection that was active when the call began - none when nothing was
    selected. *)
Theorem handleGenerate_success (s s1 : AppState) (c : Call)
    (newImageUrl : jsstring) (now_id now_ts : Z) (s2 : AppState) :
  reachable s ->
  handleGenerate_begin s = (s1, Some c) ->
  exists it,
    iterations (handleGenerate_resume c (Return newImageUrl) now_id now_ts s2)
      = it :: iterations s2 /\
    List.length (iterations
              (handleGenerate_resume c (Return newImageUrl) now_id now_ts s2))
      = S (List.length (iterations s2)) /\
    activeId (handleGenerate_resume c (Return newImageUrl) now_id now_ts s2)
      = Some (DesignIteration.id it) /\
    DesignIteration.parentId it = activeId s /\
    DesignIteration.imageUrl it = newImageUrl /\
    DesignIteration.prompt it = prompt s.
Proof.
  intros Hr Hb. apply handleGenerate_begin_call in Hb.
  destruct Hb as (_ & _ & Hp & _ & Ha).
  exists (newIteration c newImageUrl now_id now_ts).
  rewrite handleGenerate_resume_success. simpl.
  rewrite Ha, Hp. repeat split; auto using reachable_parent.
Qed.

Lemma handleGenerate_success_witness :
  reachable ready /\
  handleGenerate_begin ready
    = (setError None (setIsGenerating true ready), Some ready_call) /\
  exists it,
    iterations (handleGenerate_resume ready_call (Return imageB) 1000 1001 ready)
      = it :: iterations ready /\
    List.length (iterations
              (handleGenerate_resume ready_call (Return imageB) 1000 1001 ready))
      = S (List.length (iterations ready)) /\
    activeId (handleGenerate_resume ready_call (Return imageB) 1000 1001 ready)
      = Some (DesignIteration.id it) /\
    DesignIteration.parentId it = activeId ready /\
    DesignIteration.imageUrl it = imageB /\
    DesignIteration.prompt it = prompt ready.
Proof.
  assert (R : reachable ready) by (eexists; reflexivity).
  assert (B : handleGenerate_begin ready
              = (setError None (setIsGenerating true ready), Some ready_call))
    by reflexivity.
  split; [exact R|]. split; [exact B|].
  exact (handleGenerate_success ready _ ready_call imageB 1000 1001 ready R B).
Defined.

(** The same, for [handleGenerate] run without interruption. *)
Lemma handleGenerate_atomic_success (generateContent : endpoint)
    (now_id now_ts : Z) (s : AppState) (url : jsstring) :
  reachable s ->
  trim (prompt s) <> [] ->
  snd (generateImage generateContent (prompt s) (baseImage_of s)) = Return url ->
  exists it,
    iterations (fst (handleGenerate generateContent now_id now_ts s))
      = it :: iterations s /\
    activeId (fst (handleGenerate generateContent now_id now_ts s))
      = Some (DesignIteration.id it) /\
    DesignIteration.parentId it = activeId s /\
    DesignIteration.imageUrl it = url.
Proof.
  intros Hr Ht Hg. unfold handleGenerate, handleGenerate_begin.
  destruct (trim (prompt s)) eqn:E; [congruence|]. cbn -[generateImage].
  destruct (generateImage _ _ _) as [reqs settled]. cbn [snd] in Hg. subst.
  eexists. cbn. repeat split. apply reachable_parent, Hr.
Qed.

(** C3: with an empty or white-space-only prompt, [handleGenerate] makes no
    client call, leaves the message "Please enter a prompt." in the error
    cell, and leaves the source image, the iterations and the selection as
    they were. *)
Theorem handleGenerate_blank_prompt (generateContent : endpoint)
    (now_id now_ts : Z) (s : AppState) :
  forallb is_white (prompt s) = true ->
  snd (handleGenerate_begin s) = None /\
  snd (handleGenerate generateContent now_id now_ts s) = [] /\
  error (fst (handleGenerate generateContent now_id now_ts s))
    = Some (lit "Please enter a prompt.") /\
  sourceImage (fst (handleGenerate generateContent now_id now_ts s))
    = sourceImage s /\
  iterations (fst (handleGenerate generateContent now_id now_ts s))
    = iterations s /\
  activeId (fst (handleGenerate generateContent now_id now_ts s))
    = activeId s.
Proof.
  intros H. apply trim_blank in H.
  unfold handleGenerate, handleGenerate_begin. rewrite H. simpl. auto 10.
Qed.

Lemma handleGenerate_blank_prompt_witness :
  forallb is_white (prompt blank) = true /\
  snd (handleGenerate_begin blank) = None /\
  snd (handleGenerate (answering []) 1000 1001 blank) = [] /\
  error (fst (handleGenerate (answering []) 1000 1001 blank))
    = Some (lit "Please enter a prompt.") /\
  sourceImage (fst (handleGenerate (answering []) 1000 1001 blank))
    = sourceImage blank /\
  iterations (fst (handleGenerate (answering []) 1000 1001 blank))
    = iterations blank /\
  activeId (fst (handleGenerate (answering []) 1000 1001 blank))
    = activeId blank.
Proof.
  assert (W : forallb is_white (prompt blank) = true) by reflexivity.
  split; [exact W|].
  exact (handleGenerate_blank_prompt (answering []) 1000 1001 blank W).
Defined.

(** The continuation of a failed generation touches the error cell and the
    flag only. *)
Lemma handleGenerate_resume_failure (c : Call) (err : thrown)
    (now_id now_ts : Z) (s2 : AppState) :
  handleGenerate_resume c (Throw err) now_id now_ts s2 =
  setIsGenerating false
    match message_of err with
    | Return message =>
        setError (or_else message (Some (lit "Failed to generate image."))) s2
    | Throw _ => s2
    end.
Proof. reflexivity. Qed.

Lemma handleGenerate_resume_idle (c : Call) (settled : completion jsstring)
    (now_id now_ts : Z) (s2 : AppState) :
  isGenerating (handleGenerate_resume c settled now_id now_ts s2) = false.
Proof. reflexivity. Qed.

(** C4: when the client call throws, the source image, the iterations and
    the selection are what they were before the attempt and the thrown
    message is shown (nothing is shown when the thrown value is [undefined]
    or [null], whose [message] cannot be read); and however the client call
    settles, the generating flag ends up cleared. *)
Theorem handleGenerate_failure (generateContent : endpoint)
    (now_id now_ts : Z) (s : AppState) :
  trim (prompt s) <> [] ->
  (forall err,
     snd (generateImage generateContent (prompt s) (baseImage_of s))
       = Throw err ->
     sourceImage (fst (handleGenerate generateContent now_id now_ts s))
       = sourceImage s /\
     iterations (fst (handleGenerate generateContent now_id now_ts s))
       = iterations s /\
     activeId (fst (handleGenerate generateContent now_id now_ts s))
       = activeId s /\
     error (fst (handleGenerate generateContent now_id now_ts s))
       = match message_of err with
         | Return message =>
             or_else message (Some (lit "Failed to generate image."))
         | Throw _ => None
         end) /\
  isGenerating (fst (handleGenerate generateContent now_id now_ts s)) = false.
Proof.
  intros Ht. unfold handleGenerate, handleGenerate_begin.
  destruct (trim (prompt s)) eqn:E; [congruence|]. cbn -[generateImage].
  destruct (generateImage _ _ _) as [reqs settled]. cbn [snd fst].
  split; [|apply handleGenerate_resume_idle].
  intros err ->. destruct err; cbn; auto.
Qed.

Lemma handleGenerate_failure_witness :
  trim (prompt ready) <> [] /\
  snd (generateImage (answering []) (prompt ready) (baseImage_of ready))
    = Throw NoImageInResponseError /\
  iterations (fst (handleGenerate (answering []) 1000 1001 ready))
    = iterations ready /\
  isGenerating (fst (handleGenerate (answering []) 1000 1001 ready)) = false.
Proof.
  assert (T : trim (prompt ready) <> []) by (vm_compute; discriminate).
  assert (F : snd (generateImage (answering []) (prompt ready)
                     (baseImage_of ready)) = Throw NoImageInResponseError)
    by reflexivity.
  split; [exact T|]. split; [exact F|].
  destruct (handleGenerate_failure (answering []) 1000 1001 ready T)
    as [Hfail Hidle].
  split; [exact (proj1 (proj2 (Hfail _ F))) | exact Hidle].
Defined.

(** C5: [clearSourceImage] removes the source image and deletes no
    iteration; if the source was selected, the selection becomes the id of
    the newest iteration when there is one and empty when there is none, and
    in that last case no image is active. *)
Theorem clearSourceImage_spec (s : AppState) :
  sourceImage (clearSourceImage s) = None /\
  iterations (clearSourceImage s) = iterations s /\
  (activeId s = Some source ->
   activeId (clearSourceImage s)
     = match iterations s with
       | newest :: _ => Some (DesignIteration.id newest)
       | [] => None
       end) /\
  (activeId s = Some source -> iterations s = [] ->
   activeId (clearSourceImage s) = None /\
   activeImageUrl (clearSourceImage s) = None).
Proof.
  unfold clearSourceImage.
  destruct (strict_eq (activeId s) (Some source)) eqn:E.
  - split; [reflexivity|]. split; [reflexivity|]. split; [reflexivity|].
    intros _ Hnil. rewrite Hnil. split; [reflexivity|].
    unfold activeImageUrl. cbn. rewrite Hnil. reflexivity.
  - apply strict_eq_neq in E.
    split; [reflexivity|]. split; [reflexivity|].
    split; intros Ha; congruence.
Qed.

Lemma clearSourceImage_spec_witness :
  activeId ready = Some source /\ iterations ready = [] /\
  activeId (clearSourceImage ready) = None /\
  activeImageUrl (clearSourceImage ready) = None.
Proof.
  assert (A : activeId ready = Some source) by reflexivity.
  assert (L : iterations ready = []) by reflexivity.
  split; [exact A|]. split; [exact L|].
  exact (proj2 (proj2 (proj2 (clearSourceImage_spec ready))) A L).
Defined.

(** After a successful continuation the active image is the new image,
    unless that image is the empty string. *)
Lemma activeImageUrl_newest (c : Call) (newImageUrl : jsstring)
    (now_id now_ts : Z) (s2 : AppState) :
  activeImageUrl
    (handleGenerate_resume c (Return newImageUrl) now_id now_ts s2)
  = or_else (Some newImageUrl) (sourceImage s2).
Proof.
  rewrite handleGenerate_resume_success.
  unfold activeImageUrl. cbn [activeId iterations sourceImage
    setIsGenerating setActiveId setIterations].
  replace (strict_eq (Some (Number_toString now_id)) (Some source))
    with false.
  2:{ symmetry. apply strict_eq_neq. intros H; inversion H.
      eapply Number_toString_not_source; eassumption. }
  change (Number_toString now_id)
    with (DesignIteration.id (newIteration c newImageUrl now_id now_ts)).
  rewrite find_iteration_newest. reflexivity.
Qed.

(** C6: right after a successful generation has stored its iteration, the
    active image is the image just added, for every non-empty image the
    client returns. *)
Theorem activeImageUrl_after_generation (c : Call) (newImageUrl : jsstring)
    (now_id now_ts : Z) (s2 : AppState) :
  newImageUrl <> [] ->
  activeImageUrl
    (handleGenerate_resume c (Return newImageUrl) now_id now_ts s2)
  = Some newImageUrl.
Proof.
  intros Hn. rewrite activeImageUrl_newest.
  destruct newImageUrl; [congruence | reflexivity].
Qed.

Lemma activeImageUrl_after_generation_witness :
  imageB <> [] /\
  activeImageUrl (handleGenerate_resume ready_call (Return imageB) 1000 1001 ready)
  = Some imageB.
Proof.
  assert (N : imageB <> []) by (vm_compute; discriminate).
  split; [exact N|].
  exact (activeImageUrl_after_generation ready_call imageB 1000 1001 ready N).
Defined.

(** Whatever [generateImage] returns is such a non-empty image. *)
Lemma activeImageUrl_after_generateImage (generateContent : endpoint)
    (c : Call) (url : jsstring) (now_id now_ts : Z) (s2 : AppState) :
  snd (generateImage generateContent (call_prompt c) (call_baseImage c))
    = Return url ->
  activeImageUrl (handleGenerate_resume c (Return url) now_id now_ts s2)
  = Some url.
Proof.
  intros H. rewrite activeImageUrl_newest.
  apply generateImage_nonempty in H. destruct url; [congruence | reflexivity].
Qed.

End Store.

(* ================================================================= *)
(** ** Reachable states *)

Section Reachable.


(** Ids come from clock readings. *)
Lemma step_ids (e : event) (p : Page) (a : jsstring) :
  In a (ids (iterations (ui (step e p)))) ->
  In a (ids (iterations (ui p))) \/
  exists n, In n (id_readings [e]) /\ a = Number_toString n.
Proof.
  destruct e as [dataUrl| | |k|v| |k gc now_id now_ts]; cbn [step].
  - auto.
  - destruct (truthy _); auto. unfold clearSourceImage.
    destruct (strict_eq _ _); auto.
  - destruct (truthy _); auto.
  - destruct (nth_error _ _); auto.
  - auto.
  - pose proof (handleGenerate_begin_store (ui p)) as (_ & Hi & _).
    destruct (handleGenerate_begin (ui p)) as [s1 [c|]];
      cbn [fst ui] in *; rewrite Hi; auto.
  - destruct (nth_error _ _) as [c|]; auto.
    destruct (snd _) as [url|[m|q|m|]]; simpl; auto.
    intros [H|H]; auto. right. exists now_id. auto.
Qed.

Lemma run_ids (evs : list event) (p : Page) (a : jsstring) :
  In a (ids (iterations (ui (run evs p)))) ->
  In a (ids (iterations (ui p))) \/
  exists n, In n (id_readings evs) /\ a = Number_toString n.
Proof.
  revert p; induction evs as [|e evs IH]; intros p; simpl; auto.
  intros H. apply IH in H. destruct H as [H|(n & Hn & ->)].
  - apply step_ids in H. destruct H as [H|(n & Hn & ->)]; auto.
    right. exists n. split; [|reflexivity].
    unfold id_readings in *. simpl in *. rewrite in_app_iff.
    rewrite app_nil_r in Hn. auto.
  - right. exists n. split; [|reflexivity].
    unfold id_readings in *. simpl. rewrite in_app_iff. auto.
Qed.

Lemma reading_not_stored (evs : list event) (n : Z) :
  ~ In n (id_readings evs) ->
  ~ In (Number_toString n) (ids (iterations (ui (run evs boot)))).
Proof.
  intros Hn Hin. apply run_ids in Hin. destruct Hin as [[]|(m & Hm & E)].
  apply Number_toString_inj in E. subst m. exact (Hn Hm).
Qed.

Lemma last_reading_distinct (evs : list event) (k : nat)
    (generateContent : endpoint) (now_id now_ts : Z) :
  NoDup (id_readings (evs ++ [Settled k generateContent now_id now_ts])) ->
  ~ In now_id (id_readings evs).
Proof.
  intros Hnd. unfold id_readings in Hnd. rewrite flat_map_app in Hnd.
  simpl in Hnd. apply NoDup_remove_2 in Hnd. rewrite app_nil_r in Hnd.
  exact Hnd.
Qed.

(** C8, as the code has it: an iteration's id is the decimal text of the
    clock reading taken when it is constructed and its timestamp is the
    clock reading taken next; the id differs from the id of every iteration
    already stored provided the reading differs from every reading taken
    when an earlier generation settled. *)
Theorem fresh_id_under_distinct_readings (evs : list event)
    (now_id now_ts : Z) (c : Call) (url : jsstring) :
  ~ In now_id (id_readings evs) ->
  ~ In (DesignIteration.id (newIteration c url now_id now_ts))
       (ids (iterations (ui (run evs boot)))) /\
  DesignIteration.id (newIteration c url now_id now_ts)
    = Number_toString now_id /\
  DesignIteration.timestamp (newIteration c url now_id now_ts) = now_ts.
Proof.
  intros Hn. split; [|split; reflexivity].
  apply reading_not_stored, Hn.
Qed.

Lemma fresh_id_under_distinct_readings_witness :
  ~ In 2000%Z (id_readings (firstn 4 scenario)) /\
  ~ In (DesignIteration.id (newIteration ready_call imageC 2000 2001))
       (ids (iterations (ui (run (firstn 4 scenario) boot)))) /\
  DesignIteration.id (newIteration ready_call imageC 2000 2001)
    = Number_toString 2000 /\
  DesignIteration.timestamp (newIteration ready_call imageC 2000 2001)
    = 2001%Z.
Proof.
  assert (D : ~ In 2000%Z (id_readings (firstn 4 scenario)))
    by (cbn; intros [H|[]]; discriminate).
  split; [exact D|].
  exact (fresh_id_under_distinct_readings (firstn 4 scenario) 2000 2001
           ready_call imageC D).
Defined.

(** Along a run whose id readings are pairwise distinct, the stored ids are
    pairwise distinct. *)
Lemma ids_NoDup (evs : list event) :
  NoDup (id_readings evs) -> NoDup (ids (iterations (ui (run evs boot)))).
Proof.
  induction evs as [|e evs IH] using rev_ind; intros Hnd; [constructor|].
  assert (Hprev : NoDup (id_readings evs)).
  { unfold id_readings in *. rewrite flat_map_app in Hnd.
    eapply NoDup_app_remove_r; eassumption. }
  specialize (IH Hprev). rewrite run_snoc.
  destruct e as [dataUrl| | |j|v| |j gc now_id now_ts]; cbn [step].
  - exact IH.
  - destruct (truthy _); auto. unfold clearSourceImage.
    destruct (strict_eq _ _); auto.
  - destruct (truthy _); auto.
  - destruct (nth_error _ _); auto.
  - exact IH.
  - pose proof (handleGenerate_begin_store (ui (run evs boot))) as (_ & Hi & _).
    destruct (handleGenerate_begin (ui (run evs boot))) as [s1 [c|]];
      cbn [fst ui] in *; rewrite Hi; auto.
  - destruct (nth_error _ _) as [c|]; auto.
    destruct (snd _) as [url|[m|q|m|]]; simpl; auto.
    constructor; [|exact IH].
    apply reading_not_stored. eapply last_reading_distinct; eassumption.
Qed.

Example scenario_end :
  let s := ui (run scenario boot) in
  ids (iterations s) = [lit "2000"; lit "1000"] /\
  map DesignIteration.parentId (iterations s)
    = [Some (lit "1000"); Some source] /\
  map DesignIteration.imageUrl (iterations s) = [imageC; imageB] /\
  map DesignIteration.prompt (iterations s)
    = [lit "Make it blue"; lit "Add plants"] /\
  activeId s = Some (lit "2000") /\
  activeImageUrl s = Some imageC /\
  inflight (run scenario boot) = [].
Proof. vm_compute. repeat split. Qed.

End Reachable.

(** C8, as stated, fails: when two generations settle while the clock reads
    the same millisecond, the second iteration is constructed with the id
    the first one already has. *)
Lemma same_millisecond_duplicate_id :
  ids (iterations (ui (run same_millisecond boot)))
    = [lit "1000"; lit "1000"] /\
  ~ NoDup (ids (iterations (ui (run same_millisecond boot)))).
Proof.
  split; [reflexivity|].
  change (ids (iterations (ui (run same_millisecond boot))))
    with [lit "1000"; lit "1000"].
  intros H. inversion H as [|x l Hx _]. apply Hx. left; reflexivity.
Qed.

(* ================================================================= *)
(** ** Generation Client: the claims *)

Section ClientClaims.

Variable generateContent : endpoint.

(** C9: given a base image of data-URI shape, the client submits exactly
    one request, to the model [gemini-2.5-flash-image], whose parts are the
    inline image with the mime type and payload read from the base image,
    then the text part with the prompt; given no base image, exactly one
    request with the text part alone. *)
Theorem generateImage_request (prompt mime params payload : jsstring) :
  ~ In comma mime -> ~ In colon mime -> ~ In semicolon mime ->
  ~ In comma params -> ~ In comma payload ->
  fst (generateImage generateContent prompt
         (Some (lit "data:" ++ mime ++ lit ";" ++ params
                  ++ lit "," ++ payload)))
    = [ {| model := lit "gemini-2.5-flash-image";
           contents :=
             {| parts :=
                  Some [ {| inlineData := Some {| data := str payload;
                                                  mimeType := str mime |};
                            text := None |};
                         {| inlineData := None; text := Some prompt |} ] |} |} ]
  /\
  fst (generateImage generateContent prompt None)
    = [ {| model := lit "gemini-2.5-flash-image";
           contents :=
             {| parts :=
                  Some [ {| inlineData := None; text := Some prompt |} ] |} |} ].
Proof.
  intros Hc Hk Hs Hq Hp. split; [|reflexivity].
  change (lit "data:" ++ mime ++ lit ";" ++ params ++ lit "," ++ payload)
    with (data_uri mime params payload).
  unfold generateImage, request_parts.
  pose proof (image_part_data_uri mime params payload Hc Hk Hs Hq Hp) as E.
  unfold data_uri in *. cbn [lit list_ascii_of_string map app] in *.
  rewrite E. reflexivity.
Qed.

(** C10: decoding the base image is partial.  For every non-empty base image
    whose text before the first comma holds no colon, [generateImage] throws
    the [TypeError] of reading [split] from [undefined]; no request has been
    submitted, and the error is none of [NoCandidatesError],
    [NoImageInResponseError], [GenerationFailedError]. *)
Theorem generateImage_decoding_partial (prompt baseImage : jsstring) :
  baseImage <> [] ->
  ~ In colon (before comma baseImage) ->
  generateImage generateContent prompt (Some baseImage)
    = ([], Throw (TypeError (lit "split"))) /\
  ~ documented (TypeError (lit "split")).
Proof.
  intros Hn Hc. split; [|apply TypeError_undocumented].
  unfold generateImage, request_parts.
  destruct baseImage as [|c r]; [congruence|].
  rewrite (image_part_no_colon (c :: r) Hc). reflexivity.
Qed.

End ClientClaims.

Lemma generateImage_request_witness :
  ~ In comma (lit "image/png") /\ ~ In colon (lit "image/png") /\
  ~ In semicolon (lit "image/png") /\ ~ In comma (lit "base64") /\
  ~ In comma (lit "AAAA") /\
  fst (generateImage (answering []) (lit "Add plants")
         (Some (lit "data:" ++ lit "image/png" ++ lit ";" ++ lit "base64"
                  ++ lit "," ++ lit "AAAA")))
    = [ {| model := lit "gemini-2.5-flash-image";
           contents :=
             {| parts :=
                  Some [ {| inlineData :=
                              Some {| data := str (lit "AAAA");
                                      mimeType := str (lit "image/png") |};
                            text := None |};
                         {| inlineData := None;
                            text := Some (lit "Add plants") |} ] |} |} ].
Proof.
  assert (H1 : ~ In comma (lit "image/png"))
    by (vm_compute; intuition discriminate).
  assert (H2 : ~ In colon (lit "image/png"))
    by (vm_compute; intuition discriminate).
  assert (H3 : ~ In semicolon (lit "image/png"))
    by (vm_compute; intuition discriminate).
  assert (H4 : ~ In comma (lit "base64"))
    by (vm_compute; intuition discriminate).
  assert (H5 : ~ In comma (lit "AAAA"))
    by (vm_compute; intuition discriminate).
  repeat (split; [assumption|]).
  exact (proj1 (generateImage_request (answering []) (lit "Add plants")
                  (lit "image/png") (lit "base64") (lit "AAAA")
                  H1 H2 H3 H4 H5)).
Defined.

Lemma generateImage_decoding_partial_witness :
  lit "not-a-data-uri" <> [] /\
  ~ In colon (before comma (lit "not-a-data-uri")) /\
  generateImage (answering []) (lit "Add plants") (Some (lit "not-a-data-uri"))
    = ([], Throw (TypeError (lit "split"))).
Proof.
  assert (H1 : lit "not-a-data-uri" <> []) by (vm_compute; discriminate).
  assert (H2 : ~ In colon (before comma (lit "not-a-data-uri")))
    by (vm_compute; intuition discriminate).
  split; [exact H1|]. split; [exact H2|].
  exact (proj1 (generateImage_decoding_partial (answering [])
                  (lit "Add plants") (lit "not-a-data-uri") H1 H2)).
Defined.

(** C2, where the code departs from it: a reply whose first candidate
    carries no content object holds no inline image, yet the client fails
    with the [TypeError] of reading [parts] from [undefined], not with
    [NoImageInResponseError]. *)
Theorem generateImage_candidate_without_content (prompt : jsstring) :
  generateImage bare_candidate prompt None
    = ([ {| model := lit "gemini-2.5-flash-image";
            contents := {| parts := Some [text_part prompt] |} |} ],
       Throw (TypeError (lit "parts"))) /\
  TypeError (lit "parts") <> NoImageInResponseError.
Proof. split; [reflexivity | discriminate]. Qed.

(* ================================================================= *)
(** ** More on the Generation Client *)

Section Decoding.

Variable generateContent : endpoint.

Lemma before_no_sep (sep : N) (s : jsstring) : ~ In sep (before sep s).
Proof.
  induction s as [|c s IH]; simpl; [tauto|].
  destruct (N.eqb_spec c sep) as [->|Hn]; simpl; [tauto|].
  intros [H|H]; [congruence | tauto].
Qed.

Lemma before_tail (sep : N) (s : jsstring) :
  In sep s -> exists tail, s = before sep s ++ sep :: tail.
Proof.
  induction s as [|c s IH]; simpl; [tauto|].
  destruct (N.eqb_spec c sep) as [->|Hn].
  - intros _. exists s. reflexivity.
  - intros [H|H]; [congruence|].
    destruct (IH H) as (tail & E). exists tail. simpl. congruence.
Qed.

Lemma image_part_throw (baseImage : jsstring) (e : thrown) :
  image_part baseImage = Throw e -> e = TypeError (lit "split").
Proof.
  unfold image_part. destruct (split comma baseImage) as [|prefix rest].
  - intros H; inversion H; reflexivity.
  - destruct (nth_error (split colon prefix) 1);
      intros H; inversion H; reflexivity.
Qed.

(** The decoding of a data URI whose payload is arbitrary. *)
Lemma image_part_data_uri_any (mime params payload : jsstring) :
  ~ In comma mime -> ~ In colon mime -> ~ In semicolon mime ->
  ~ In comma params ->
  image_part (data_uri mime params payload)
    = Return (inline_part mime (before comma payload)).
Proof.
  intros Hc Hk Hs Hq. unfold image_part, data_uri.
  replace (lit "data:" ++ mime ++ semicolon :: params ++ comma :: payload)
    with ((lit "data:" ++ mime ++ semicolon :: params) ++ comma :: payload)
    by (rewrite <- !app_assoc; reflexivity).
  rewrite split_at_sep.
  2:{ rewrite !in_app_iff. intros [H|[H|[H|H]]]; try tauto;
      vm_compute in H; intuition discriminate. }
  destruct (split_head comma payload) as (more & ->). cbn [nth_error].
  change (lit "data:" ++ mime ++ semicolon :: params)
    with (lit "data" ++ colon :: (mime ++ semicolon :: params)).
  rewrite split_at_sep by (vm_compute; intuition discriminate).
  destruct (split_head colon (mime ++ semicolon :: params)) as (rest & ->).
  cbn [nth_error]. rewrite before_app by exact Hk.
  cbn [before]. change (N.eqb semicolon colon) with false. cbv iota.
  rewrite split_at_sep by exact Hs.
  reflexivity.
Qed.

(** Whatever starts with [data:] decodes to an inline-image part. *)
Lemma image_part_data_url (rest : jsstring) :
  exists d m,
    image_part (lit "data:" ++ rest)
      = Return {| inlineData := Some {| data := d; mimeType := m |};
                  text := None |}.
Proof.
  unfold image_part.
  destruct (split_head comma (lit "data:" ++ rest)) as (more & ->).
  rewrite before_app by (vm_compute; intuition discriminate).
  change (lit "data:" ++ before comma rest)
    with (lit "data" ++ colon :: before comma rest).
  rewrite split_at_sep by (vm_compute; intuition discriminate).
  destruct (split_cons colon (before comma rest)) as (seg & others & ->).
  cbn [nth_error]. eauto.
Qed.

Lemma request_parts_data_url (prompt url : jsstring) :
  is_data_url url ->
  exists part,
    inlineData part <> None /\
    request_parts prompt (Some url) = Return [part; text_part prompt].
Proof.
  intros (rest & ->). unfold request_parts.
  destruct (image_part_data_url rest) as (d & m & E).
  change (lit "data:" ++ rest) with (100 :: 97 :: 116 :: 97 :: 58 :: rest) in *.
  cbv beta iota. rewrite E. eexists; split; [|reflexivity]. discriminate.
Qed.

Lemma read_reply_data_url (response : GenerateContentResponse)
    (url : jsstring) :
  read_reply response = Return url -> is_data_url url.
Proof.
  unfold read_reply.
  destruct (candidates response) as [[|first ?]|]; try discriminate.
  destruct (content first) as [c|]; try discriminate.
  destruct (first_inline _); try discriminate.
  intros H; inversion H. eexists; reflexivity.
Qed.

Lemma generateImage_data_url (prompt : jsstring)
    (baseImage : option jsstring) (url : jsstring) :
  snd (generateImage generateContent prompt baseImage) = Return url ->
  is_data_url url.
Proof.
  unfold generateImage.
  destruct (request_parts prompt baseImage) as [ps|e]; cbn [snd];
    [|discriminate].
  destruct (generateContent _) as [response|e]; [|discriminate].
  apply read_reply_data_url.
Qed.

Lemma first_inline_skip (texts rest : list Part) (p : Part) (blob : Blob) :
  Forall (fun q => inlineData q = None) texts ->
  inlineData p = Some blob ->
  first_inline (texts ++ p :: rest) = Some blob.
Proof.
  intros H Hp. induction H as [|q texts Hq _ IH]; simpl.
  - rewrite Hp. reflexivity.
  - rewrite Hq. exact IH.
Qed.

Lemma first_inline_none (ps : list Part) :
  Forall (fun q => inlineData q = None) ps -> first_inline ps = None.
Proof.
  intros H. induction H as [|q ps Hq _ IH]; simpl; [reflexivity|].
  rewrite Hq. exact IH.
Qed.

End Decoding.

Section ClientExtras.

Variable generateContent : endpoint.

(** X1: an image the endpoint declares with a clean mime type and payload
    comes back from [generateImage] as a string which, used as the base
    image of a later call, is sent as the very same inline-image part. *)
Theorem image_round_trip (prompt : jsstring) (baseImage : option jsstring)
    (ps : list Part) (response : GenerateContentResponse)
    (first : Candidate) (others : list Candidate)
    (texts rest : list Part) (mime payload : jsstring) :
  request_parts prompt baseImage = Return ps ->
  generateContent (the_request ps) = Return response ->
  candidates response = Some (first :: others) ->
  content first
    = Some {| parts := Some (texts ++ inline_part mime payload :: rest) |} ->
  Forall (fun q => inlineData q = None) texts ->
  ~ In comma mime -> ~ In colon mime -> ~ In semicolon mime ->
  ~ In comma payload ->
  exists url,
    snd (generateImage generateContent prompt baseImage) = Return url /\
    forall (next : endpoint) (prompt' : jsstring),
      fst (generateImage next prompt' (Some url))
        = [the_request [inline_part mime payload; text_part prompt']].
Proof.
  intros Hps Hgc Hcs Hct Htx Hc Hk Hs Hp.
  exists (encoded_image mime payload). split.
  - rewrite (generateImage_reply generateContent prompt baseImage ps response
               Hps Hgc).
    eapply read_reply_image; eauto.
  - intros next prompt'. unfold generateImage, request_parts.
    assert (Hq : ~ In comma (lit "base64"))
      by (vm_compute; intuition discriminate).
    pose proof (image_part_data_uri mime (lit "base64") payload
                  Hc Hk Hs Hq Hp) as E.
    rewrite <- encoded_image_data_uri in E.
    unfold encoded_image in *. cbn [lit list_ascii_of_string map app] in *.
    rewrite E. reflexivity.
Qed.

(** X2: whatever [generateImage] returns can be used as a base image: the
    later call decodes it without a [TypeError] and submits one request made
    of an inline-image part and the prompt. *)
Theorem returned_image_decodes (prompt : jsstring)
    (baseImage : option jsstring) (url : jsstring) :
  snd (generateImage generateContent prompt baseImage) = Return url ->
  forall (next : endpoint) (prompt' : jsstring),
  exists part,
    inlineData part <> None /\
    fst (generateImage next prompt' (Some url))
      = [the_request [part; text_part prompt']].
Proof.
  intros H next prompt'. apply generateImage_data_url in H.
  destruct (request_parts_data_url prompt' url H) as (part & Hp & E).
  exists part. split; [exact Hp|].
  unfold generateImage. rewrite E. reflexivity.
Qed.

(** X3: of a data URI, the client sends the mime type up to the first
    semicolon and the payload up to its first comma; the parameters and
    whatever follows a second comma are dropped. *)
Theorem generateImage_payload_cut (prompt mime params payload : jsstring) :
  ~ In comma mime -> ~ In colon mime -> ~ In semicolon mime ->
  ~ In comma params ->
  fst (generateImage generateContent prompt
         (Some (data_uri mime params payload)))
    = [the_request [inline_part mime (before comma payload);
                    text_part prompt]].
Proof.
  intros Hc Hk Hs Hq. unfold generateImage, request_parts.
  pose proof (image_part_data_uri_any mime params payload Hc Hk Hs Hq) as E.
  unfold data_uri in *. cbn [lit list_ascii_of_string map app] in *.
  rewrite E. reflexivity.
Qed.

(** X4: a base image with a colon and no comma is sent with a mime type and
    an [undefined] payload. *)
Theorem generateImage_without_comma (prompt baseImage : jsstring) :
  In colon baseImage -> ~ In comma baseImage ->
  exists mime,
    fst (generateImage generateContent prompt (Some baseImage))
      = [the_request
           [ {| inlineData := Some {| data := undefined;
                                      mimeType := str mime |};
                text := None |};
             text_part prompt ] ].
Proof.
  intros Hk Hc.
  assert (E : exists mime, image_part baseImage
              = Return {| inlineData := Some {| data := undefined;
                                                mimeType := str mime |};
                          text := None |}).
  { unfold image_part. rewrite (split_no_sep comma baseImage Hc).
    cbn [nth_error].
    pose proof (before_no_sep colon baseImage) as Hpre.
    destruct (before_tail colon baseImage Hk) as (tail & Ht).
    set (pre := before colon baseImage) in *. clearbody pre. subst baseImage.
    rewrite split_at_sep by exact Hpre.
    destruct (split_head colon tail) as (more & ->). cbn [nth_error].
    destruct (split_head semicolon (before colon tail)) as (more' & ->).
    unfold index. cbn [nth_error]. eauto. }
  destruct E as (mime & E). exists mime.
  unfold generateImage, request_parts.
  destruct baseImage as [|c r]; [destruct Hk|].
  rewrite E. reflexivity.
Qed.

(** X5: whatever the arguments and the endpoint, [generateImage] submits at
    most one request.  It submits none only when decoding the base image
    raised the [TypeError]; otherwise the request goes to the fixed model,
    holds at most one part before the text part with the prompt, and a
    rejection by the endpoint is passed on unchanged. *)
Theorem generateImage_requests (prompt : jsstring)
    (baseImage : option jsstring) :
  generateImage generateContent prompt baseImage
    = ([], Throw (TypeError (lit "split"))) \/
  exists image,
    (List.length image <= 1)%nat /\
    fst (generateImage generateContent prompt baseImage)
      = [the_request (image ++ [text_part prompt])] /\
    forall e,
      generateContent (the_request (image ++ [text_part prompt])) = Throw e ->
      snd (generateImage generateContent prompt baseImage) = Throw e.
Proof.
  unfold generateImage, request_parts.
  destruct baseImage as [[|c r]|].
  - right. exists []. simpl. repeat split; auto. intros e ->. reflexivity.
  - destruct (image_part (c :: r)) as [p|e] eqn:E.
    + right. exists [p]. simpl. repeat split; auto. intros e ->. reflexivity.
    + left. apply image_part_throw in E. subst e. reflexivity.
  - right. exists []. simpl. repeat split; auto. intros e ->. reflexivity.
Qed.

(** A reply whose candidate list is absent or empty makes the client fail
    with "No candidates returned". *)
Lemma generateImage_no_candidates (prompt : jsstring)
    (baseImage : option jsstring) (ps : list Part)
    (response : GenerateContentResponse) :
  request_parts prompt baseImage = Return ps ->
  generateContent (the_request ps) = Return response ->
  candidates response = None \/ candidates response = Some [] ->
  snd (generateImage generateContent prompt baseImage)
    = Throw NoCandidatesError.
Proof.
  intros Hps Hgc Hc.
  rewrite (generateImage_reply generateContent prompt baseImage ps response
             Hps Hgc).
  apply read_reply_no_candidates, Hc.
Qed.

(** X6: when the first candidate has a content object whose parts are
    absent, or hold no inline data at all, the client fails with "No image
    found in the response" - whatever the other candidates hold. *)
Theorem generateImage_no_image (prompt : jsstring)
    (baseImage : option jsstring) (ps : list Part)
    (response : GenerateContentResponse)
    (first : Candidate) (others : list Candidate) (c : Content) :
  request_parts prompt baseImage = Return ps ->
  generateContent (the_request ps) = Return response ->
  candidates response = Some (first :: others) ->
  content first = Some c ->
  parts c = None \/
  (exists qs, parts c = Some qs /\ Forall (fun q => inlineData q = None) qs) ->
  snd (generateImage generateContent prompt baseImage)
    = Throw NoImageInResponseError.
Proof.
  intros Hps Hgc Hcs Hct Hparts.
  rewrite (generateImage_reply generateContent prompt baseImage ps response
             Hps Hgc).
  unfold read_reply. rewrite Hcs, Hct.
  destruct Hparts as [-> | (qs & -> & Hq)]; [reflexivity|].
  rewrite (first_inline_none qs Hq). reflexivity.
Qed.

(** X7: the client returns the first part of the first candidate that
    carries inline data, as [data:<mimeType>;base64,<data>], where a field
    that is [undefined] is printed "undefined" and one that is [null] is
    printed "null".  Later parts and later candidates play no role. *)
Theorem generateImage_first_image (prompt : jsstring)
    (baseImage : option jsstring) (ps : list Part)
    (response : GenerateContentResponse)
    (first : Candidate) (others : list Candidate)
    (texts rest : list Part) (p : Part) (blob : Blob) :
  request_parts prompt baseImage = Return ps ->
  generateContent (the_request ps) = Return response ->
  candidates response = Some (first :: others) ->
  content first = Some {| parts := Some (texts ++ p :: rest) |} ->
  Forall (fun q => inlineData q = None) texts ->
  inlineData p = Some blob ->
  snd (generateImage generateContent prompt baseImage)
    = Return (lit "data:"
                ++ match mimeType blob with
                   | str mime => mime
                   | null => lit "null"
                   | undefined => lit "undefined"
                   end
                ++ lit ";base64,"
                ++ match data blob with
                   | str payload => payload
                   | null => lit "null"
                   | undefined => lit "undefined"
                   end).
Proof.
  intros Hps Hgc Hcs Hct Htx Hp.
  rewrite (generateImage_reply generateContent prompt baseImage ps response
             Hps Hgc).
  unfold read_reply. rewrite Hcs, Hct. cbn [parts].
  rewrite (first_inline_skip texts rest p blob Htx Hp).
  destruct blob as [[| |d] [| |m]]; reflexivity.
Qed.

End ClientExtras.

Ltac absent := vm_compute; intuition discriminate.

Lemma image_round_trip_witness :
  request_parts (lit "Add plants") None
    = Return [text_part (lit "Add plants")] /\
  replying two_images (the_request [text_part (lit "Add plants")])
    = Return two_images /\
  ~ In comma (lit "image/jpeg") /\ ~ In colon (lit "image/jpeg") /\
  ~ In semicolon (lit "image/jpeg") /\ ~ In comma (lit "BBBB") /\
  exists url,
    snd (generateImage (replying two_images) (lit "Add plants") None)
      = Return url /\
    forall (next : endpoint) (prompt' : jsstring),
      fst (generateImage next prompt' (Some url))
        = [the_request [inline_part (lit "image/jpeg") (lit "BBBB");
                        text_part prompt']].
Proof.
  assert (H1 : ~ In comma (lit "image/jpeg")) by absent.
  assert (H2 : ~ In colon (lit "image/jpeg")) by absent.
  assert (H3 : ~ In semicolon (lit "image/jpeg")) by absent.
  assert (H4 : ~ In comma (lit "BBBB")) by absent.
  assert (F : Forall (fun q => inlineData q = None)
                [text_part (lit "Here it is")])
    by (constructor; [reflexivity | constructor]).
  split; [reflexivity|]. split; [reflexivity|].
  repeat (split; [assumption|]).
  exact (image_round_trip (replying two_images) (lit "Add plants") None
           [text_part (lit "Add plants")] two_images
           {| content :=
                Some {| parts :=
                          Some [text_part (lit "Here it is");
                                inline_part (lit "image/jpeg") (lit "BBBB");
                                inline_part (lit "image/png") (lit "CCCC")] |} |}
           [ {| content := None |} ]
           [text_part (lit "Here it is")]
           [inline_part (lit "image/png") (lit "CCCC")]
           (lit "image/jpeg") (lit "BBBB")
           eq_refl eq_refl eq_refl eq_refl F H1 H2 H3 H4).
Defined.

Lemma returned_image_decodes_witness :
  snd (generateImage (replying two_images) (lit "Add plants") None)
    = Return imageB /\
  exists part,
    inlineData part <> None /\
    fst (generateImage (replying no_candidates) (lit "Make it blue")
           (Some imageB))
      = [the_request [part; text_part (lit "Make it blue")]].
Proof.
  assert (H : snd (generateImage (replying two_images) (lit "Add plants") None)
              = Return imageB) by reflexivity.
  split; [exact H|].
  exact (returned_image_decodes (replying two_images) (lit "Add plants") None
           imageB H (replying no_candidates) (lit "Make it blue")).
Defined.

Lemma generateImage_payload_cut_witness :
  ~ In comma (lit "image/png") /\ ~ In colon (lit "image/png") /\
  ~ In semicolon (lit "image/png") /\
  ~ In comma (lit "charset=utf-8;base64") /\
  fst (generateImage (replying no_candidates) (lit "Add plants")
         (Some (data_uri (lit "image/png") (lit "charset=utf-8;base64")
                  (lit "AAAA,BBBB"))))
    = [the_request [inline_part (lit "image/png")
                      (before comma (lit "AAAA,BBBB"));
                    text_part (lit "Add plants")]].
Proof.
  assert (H1 : ~ In comma (lit "image/png")) by absent.
  assert (H2 : ~ In colon (lit "image/png")) by absent.
  assert (H3 : ~ In semicolon (lit "image/png")) by absent.
  assert (H4 : ~ In comma (lit "charset=utf-8;base64")) by absent.
  repeat (split; [assumption|]).
  exact (generateImage_payload_cut (replying no_candidates) (lit "Add plants")
           (lit "image/png") (lit "charset=utf-8;base64") (lit "AAAA,BBBB")
           H1 H2 H3 H4).
Defined.

Lemma generateImage_without_comma_witness :
  In colon (lit "data:image/png") /\ ~ In comma (lit "data:image/png") /\
  exists mime,
    fst (generateImage (replying no_candidates) (lit "Add plants")
           (Some (lit "data:image/png")))
      = [the_request
           [ {| inlineData := Some {| data := undefined;
                                      mimeType := str mime |};
                text := None |};
             text_part (lit "Add plants") ] ].
Proof.
  assert (H1 : In colon (lit "data:image/png")) by (vm_compute; tauto).
  assert (H2 : ~ In comma (lit "data:image/png")) by absent.
  split; [exact H1|]. split; [exact H2|].
  exact (generateImage_without_comma (replying no_candidates)
           (lit "Add plants") (lit "data:image/png") H1 H2).
Defined.

Lemma generateImage_no_candidates_witness :
  request_parts (lit "Add plants") None
    = Return [text_part (lit "Add plants")] /\
  replying no_candidates (the_request [text_part (lit "Add plants")])
    = Return no_candidates /\
  (candidates no_candidates = None \/ candidates no_candidates = Some []) /\
  snd (generateImage (replying no_candidates) (lit "Add plants") None)
    = Throw NoCandidatesError.
Proof.
  assert (H : candidates no_candidates = None \/
              candidates no_candidates = Some []) by (right; reflexivity).
  split; [reflexivity|]. split; [reflexivity|]. split; [exact H|].
  exact (generateImage_no_candidates (replying no_candidates)
           (lit "Add plants") None [text_part (lit "Add plants")]
           no_candidates eq_refl eq_refl H).
Defined.

Lemma generateImage_no_image_witness :
  request_parts (lit "Add plants") None
    = Return [text_part (lit "Add plants")] /\
  replying no_parts (the_request [text_part (lit "Add plants")])
    = Return no_parts /\
  snd (generateImage (replying no_parts) (lit "Add plants") None)
    = Throw NoImageInResponseError.
Proof.
  split; [reflexivity|]. split; [reflexivity|].
  exact (generateImage_no_image (replying no_parts) (lit "Add plants") None
           [text_part (lit "Add plants")] no_parts
           {| content := Some {| parts := None |} |} [] {| parts := None |}
           eq_refl eq_refl eq_refl eq_refl (or_introl eq_refl)).
Defined.

Lemma generateImage_first_image_witness :
  request_parts (lit "Add plants") None
    = Return [text_part (lit "Add plants")] /\
  replying null_mime (the_request [text_part (lit "Add plants")])
    = Return null_mime /\
  snd (generateImage (replying null_mime) (lit "Add plants") None)
    = Return (lit "data:null;base64,QQ==").
Proof.
  assert (F : Forall (fun q => inlineData q = None)
                [text_part (lit "Here it is")])
    by (constructor; [reflexivity | constructor]).
  split; [reflexivity|]. split; [reflexivity|].
  exact (generateImage_first_image (replying null_mime) (lit "Add plants")
           None [text_part (lit "Add plants")] null_mime
           {| content :=
                Some {| parts :=
                          Some [text_part (lit "Here it is");
                                {| inlineData :=
                                     Some {| data := str (lit "QQ==");
                                             mimeType := null |};
                                   text := None |};
                                inline_part (lit "image/png") (lit "CCCC")] |} |}
           [ {| content := None |} ]
           [text_part (lit "Here it is")]
           [inline_part (lit "image/png") (lit "CCCC")]
           {| inlineData := Some {| data := str (lit "QQ==");
                                    mimeType := null |};
              text := None |}
           {| data := str (lit "QQ=="); mimeType := null |}
           eq_refl eq_refl eq_refl eq_refl F eq_refl).
Defined.

(* ================================================================= *)
(** ** More on the page *)

Section PageFacts.

Lemma data_url_truthy (u : jsstring) : is_data_url u -> truthy (Some u) = true.
Proof. intros (rest & ->). reflexivity. Qed.

Lemma find_iteration_in (a : jsstring) (l : list DesignIteration.t) :
  In a (ids l) ->
  exists it, find_iteration (Some a) l = Some it /\
             DesignIteration.id it = a /\ In it l.
Proof.
  unfold find_iteration. induction l as [|x l IH]; simpl; [tauto|].
  intros H. destruct (JS.eqb (DesignIteration.id x) a) eqn:E.
  - apply eqb_eq in E. exists x. auto.
  - destruct H as [H|H].
    + rewrite H, eqb_refl in E. discriminate.
    + destruct (IH H) as (it & Hf & Hid & Hin). exists it. auto.
Qed.

Lemma find_iteration_absent (a : jsstring) (l : list DesignIteration.t) :
  ~ In a (ids l) -> find_iteration (Some a) l = None.
Proof.
  unfold find_iteration. induction l as [|x l IH]; simpl; [reflexivity|].
  intros H. destruct (JS.eqb (DesignIteration.id x) a) eqn:E.
  - apply eqb_eq in E. tauto.
  - apply IH. tauto.
Qed.

Lemma find_iteration_null (l : list DesignIteration.t) :
  find_iteration None l = None.
Proof. unfold find_iteration. induction l; simpl; auto. Qed.

Lemma find_iteration_unique (it : DesignIteration.t)
    (l : list DesignIteration.t) :
  NoDup (ids l) -> In it l ->
  find_iteration (Some (DesignIteration.id it)) l = Some it.
Proof.
  unfold find_iteration. induction l as [|x l IH]; simpl; [tauto|].
  intros Hnd Hin. inversion Hnd as [|? ? Hx Hl]; subst.
  destruct Hin as [->|Hin]; [rewrite eqb_refl; reflexivity|].
  destruct (JS.eqb (DesignIteration.id x) (DesignIteration.id it)) eqn:E.
  - apply eqb_eq in E. exfalso. apply Hx. rewrite E. apply in_map, Hin.
  - apply IH; assumption.
Qed.

Lemma numbered_not_source (l : list DesignIteration.t) :
  numbered l -> ~ In source (ids l).
Proof.
  intros Hn H. apply in_map_iff in H. destruct H as (it & Hid & Hin).
  unfold numbered in Hn. rewrite Forall_forall in Hn.
  destruct (Hn it Hin) as (n & E).
  apply (Number_toString_not_source n). congruence.
Qed.

(** *** Stored iterations are well formed *)

Lemma kept_boot : kept boot.
Proof. split; constructor. Qed.

Lemma step_kept (e : event) (p : Page) : kept p -> kept (step e p).
Proof.
  intros [Hit Hfl].
  destruct e as [dataUrl| | |k|v| |k gc now_id now_ts]; cbn [step].
  - split; assumption.
  - destruct (truthy _); [|split; assumption]. unfold clearSourceImage.
    destruct (strict_eq _ _); split; assumption.
  - destruct (truthy _); split; assumption.
  - destruct (nth_error _ _); split; assumption.
  - split; assumption.
  - pose proof (handleGenerate_begin_store (ui p)) as (_ & Hi & _).
    destruct (handleGenerate_begin (ui p)) as [s1 [c|]] eqn:E;
      cbn [fst] in Hi; split; cbn [ui inflight]; rewrite ?Hi; auto.
    constructor; [|assumption].
    apply handleGenerate_begin_call in E.
    destruct E as (_ & Ht & -> & _). exact Ht.
  - destruct (nth_error (inflight p) k) as [c|] eqn:E; [|split; assumption].
    assert (Hc : trim (call_prompt c) <> []).
    { rewrite Forall_forall in Hfl. apply Hfl.
      eapply nth_error_In; eassumption. }
    assert (Hrest : Forall (fun c' => trim (call_prompt c') <> [])
                      (remove_nth k (inflight p))).
    { rewrite Forall_forall in *. intros c' H'. apply Hfl.
      eapply In_remove_nth; eassumption. }
    destruct (snd (generateImage gc (call_prompt c) (call_baseImage c)))
      as [url|[m|q|m|]] eqn:G; split; simpl; auto.
    constructor; [|assumption]. split; [|split].
    + simpl. eapply generateImage_data_url; eassumption.
    + exact Hc.
    + eexists; reflexivity.
Qed.

Lemma run_kept (evs : list event) (p : Page) : kept p -> kept (run evs p).
Proof.
  revert p; induction evs as [|e evs IH]; intros p H; simpl; auto.
  apply IH, step_kept, H.
Qed.

Lemma stored_image (evs : list event) (it : DesignIteration.t) :
  In it (iterations (ui (run evs boot))) ->
  exists c r, DesignIteration.imageUrl it = c :: r.
Proof.
  intros Hin. pose proof (kept_iterations _ (run_kept evs boot kept_boot)) as H.
  rewrite Forall_forall in H. destruct (H it Hin) as ((rest & ->) & _).
  eexists _, _. reflexivity.
Qed.

(** *** Guarded runs are runs *)

Lemma run_app (evs evs' : list event) (p : Page) :
  run (evs ++ evs') p = run evs' (run evs p).
Proof. unfold run. apply fold_left_app. Qed.

Lemma browse_run (evs : list event) (p : Page) :
  exists evs', browse evs p = run evs' p.
Proof.
  revert p; induction evs as [|e evs IH]; intros p; simpl.
  - exists []. reflexivity.
  - unfold press at 1. destruct (offered e p).
    + destruct (IH (step e p)) as (evs' & E). exists (e :: evs'). exact E.
    + apply IH.
Qed.

End PageFacts.

Section PageExtras.

(** X8: once a generation has succeeded, the image it produced is the base
    image of the next generation, on whatever state the success landed. *)
Theorem baseImage_after_generation (c : Call) (newImageUrl : jsstring)
    (now_id now_ts : Z) (s2 : AppState) :
  baseImage_of (handleGenerate_resume c (Return newImageUrl) now_id now_ts s2)
  = Some newImageUrl.
Proof.
  rewrite handleGenerate_resume_success. unfold baseImage_of.
  cbn [activeId iterations sourceImage
       setIsGenerating setActiveId setIterations].
  replace (strict_eq (Some (Number_toString now_id)) (Some source))
    with false.
  2:{ symmetry. apply strict_eq_neq. intros H; inversion H.
      eapply Number_toString_not_source; eassumption. }
  rewrite Number_toString_truthy. cbn [andb].
  change (Number_toString now_id)
    with (DesignIteration.id (newIteration c newImageUrl now_id now_ts)).
  rewrite find_iteration_newest. reflexivity.
Qed.

(** X9: in every state the page can reach, the image sent as the base of a
    generation is the image on display; when nothing is on display, no base
    image is sent. *)
Theorem baseImage_is_active_image (evs : list event) :
  (truthy (activeImageUrl (ui (run evs boot))) = true ->
   baseImage_of (ui (run evs boot)) = activeImageUrl (ui (run evs boot))) /\
  (truthy (activeImageUrl (ui (run evs boot))) = false ->
   baseImage_of (ui (run evs boot)) = None).
Proof.
  destruct (run_invariant evs boot invariant_boot) as [Hsel Hnum _ _].
  pose proof (stored_image evs) as Himg.
  set (s := ui (run evs boot)) in *.
  unfold selection_ok in Hsel. unfold activeImageUrl, baseImage_of.
  destruct (activeId s) as [a|] eqn:Ea.
  - destruct Hsel as [[-> Hsrc]|Hin].
    + replace (strict_eq (Some source) (Some source)) with true
        by (symmetry; apply strict_eq_eq; reflexivity).
      cbn [andb]. destruct (truthy (sourceImage s)) eqn:Et.
      * split; [reflexivity | discriminate].
      * change (truthy (Some source)) with true. cbv iota.
        rewrite (find_iteration_absent source _ (numbered_not_source _ Hnum)).
        split; [discriminate | reflexivity].
    + assert (Hns : a <> source).
      { intros ->. exact (numbered_not_source _ Hnum Hin). }
      replace (strict_eq (Some a) (Some source)) with false
        by (symmetry; apply strict_eq_neq; congruence).
      cbn [andb].
      destruct (find_iteration_in a _ Hin) as (it & Hf & Hid & Hit).
      rewrite Hf. cbn [option_map].
      destruct (Himg it Hit) as (c & r & Hu). rewrite Hu.
      assert (Ha : truthy (Some a) = true).
      { unfold numbered in Hnum. rewrite Forall_forall in Hnum.
        destruct (Hnum it Hit) as (n & Hn). rewrite <- Hid, Hn.
        apply Number_toString_truthy. }
      rewrite Ha. split; [reflexivity | discriminate].
  - cbn [strict_eq andb truthy]. rewrite find_iteration_null.
    cbn [option_map or_else truthy].
    destruct (truthy (sourceImage s)); split; congruence.
Qed.

(** X10: driven through the generate button, the page never has more than
    one client call pending, and [isGenerating] is set exactly while one
    is. *)
Theorem one_call_in_flight (evs : list event) :
  (List.length (inflight (browse evs boot)) <= 1)%nat /\
  (isGenerating (ui (browse evs boot)) = true <->
   inflight (browse evs boot) <> []).
Proof.
  assert (H : single_flight (browse evs boot)).
  { assert (G : forall p, single_flight p -> single_flight (browse evs p)).
    { induction evs as [|e evs IH]; intros p Hp; simpl; auto.
      apply IH. unfold press.
      destruct e as [dataUrl| | |k|v| |k gc now_id now_ts];
        cbn [offered step].
      - exact Hp.
      - destruct (truthy _); [|exact Hp]. unfold clearSourceImage.
        destruct (strict_eq _ _); exact Hp.
      - destruct (truthy _); exact Hp.
      - destruct (nth_error _ _); exact Hp.
      - exact Hp.
      - unfold generateDisabled, handleGenerate_begin.
        destruct Hp as [[Hn Hg]|(c & Hc & Hg)]; rewrite Hg; cbn [orb negb].
        + destruct (negb (truthy (Some (trim (prompt (ui p)))))); cbn [negb].
          * left; auto.
          * right. cbn [inflight ui]. rewrite Hn. eexists; split; reflexivity.
        + right; eauto.
      - destruct Hp as [[Hn Hg]|(c & Hc & Hg)].
        + rewrite Hn. destruct k; cbn [nth_error]; left; auto.
        + rewrite Hc. destruct k as [|k]; cbn [nth_error].
          * left. split; reflexivity.
          * destruct k; cbn [nth_error]; right; eauto. }
    apply G. left; split; reflexivity. }
  destruct H as [[Hn Hg]|(c & Hc & Hg)].
  - rewrite Hn, Hg. split; [auto|]. split; [discriminate | congruence].
  - rewrite Hc, Hg. split; [auto|]. split; [discriminate | reflexivity].
Qed.

Lemma step_iterations (e : event) (p : Page) :
  exists newer,
    iterations (ui (step e p)) = newer ++ iterations (ui p) /\
    (List.length newer <= List.length (id_readings [e]))%nat.
Proof.
  destruct e as [dataUrl| | |k|v| |k gc now_id now_ts]; cbn [step];
    try (exists []; split; [reflexivity | simpl; lia]).
  - destruct (truthy _); [|exists []; split; [reflexivity | simpl; lia]].
    unfold clearSourceImage.
    destruct (strict_eq _ _); exists []; split; simpl; auto.
  - destruct (truthy _); exists []; split; simpl; auto.
  - destruct (nth_error _ _); exists []; split; simpl; auto.
  - pose proof (handleGenerate_begin_store (ui p)) as (_ & Hi & _).
    destruct (handleGenerate_begin (ui p)) as [s1 [c|]];
      cbn [fst ui] in *; exists []; split; simpl; auto.
  - destruct (nth_error _ _) as [c|];
      [|exists []; split; [reflexivity | simpl; lia]].
    destruct (snd _) as [url|[m|q|m|]];
      [|exists []; split; [reflexivity | simpl; lia] ..].
    exists [newIteration c url now_id now_ts]. split; [reflexivity|].
    simpl; lia.
Qed.

Lemma run_iterations (evs : list event) (p : Page) :
  exists newer,
    iterations (ui (run evs p)) = newer ++ iterations (ui p) /\
    (List.length newer <= settlements evs)%nat.
Proof.
  revert p; induction evs as [|e evs IH]; intros p; simpl.
  - exists []. split; [reflexivity | simpl; lia].
  - destruct (IH (step e p)) as (n1 & E1 & L1).
    destruct (step_iterations e p) as (n2 & E2 & L2).
    exists (n1 ++ n2). rewrite E1, E2, app_assoc. split; [reflexivity|].
    unfold settlements, id_readings in *. simpl in *.
    rewrite !length_app in *. simpl in L2. lia.
Qed.

(** X11: no event of the page removes, reorders or alters a stored
    iteration: the list found at any point of a run is still the tail of the
    list at every later point. *)
Theorem iterations_never_removed (evs later : list event) :
  exists newer,
    iterations (ui (run (evs ++ later) boot))
      = newer ++ iterations (ui (run evs boot)).
Proof.
  rewrite run_app.
  destruct (run_iterations later (run evs boot)) as (newer & E & _).
  exists newer. exact E.
Qed.

(** X12: iterations only come from settled generations: a run stores at
    most as many iterations as it has [Settled] events. *)
Theorem iterations_bounded_by_settlements (evs : list event) :
  (List.length (iterations (ui (run evs boot))) <= settlements evs)%nat.
Proof.
  destruct (run_iterations evs boot) as (newer & E & L).
  rewrite E. simpl. rewrite app_nil_r. exact L.
Qed.

(** X13: after [handleGenerate] has run on a prompt that is not blank, the
    error cell is empty when the client call succeeded.  When the call
    failed with anything but [undefined] or [null], the cell holds a
    non-empty message, which is "Failed to generate image." when the thrown
    value has no message or an empty one.  When the promise was rejected
    with [undefined] or [null], reading its [message] throws inside the
    [catch] block and the cell stays empty. *)
Theorem error_after_generation (generateContent : endpoint)
    (now_id now_ts : Z) (s : AppState) :
  trim (prompt s) <> [] ->
  (forall url,
     snd (generateImage generateContent (prompt s) (baseImage_of s))
       = Return url ->
     error (fst (handleGenerate generateContent now_id now_ts s)) = None) /\
  (forall err,
     snd (generateImage generateContent (prompt s) (baseImage_of s))
       = Throw err ->
     err <> Nullish ->
     truthy (error (fst (handleGenerate generateContent now_id now_ts s)))
       = true) /\
  (forall m,
     snd (generateImage generateContent (prompt s) (baseImage_of s))
       = Throw (Rejection m) ->
     m = None \/ m = Some [] ->
     error (fst (handleGenerate generateContent now_id now_ts s))
       = Some (lit "Failed to generate image.")) /\
  (snd (generateImage generateContent (prompt s) (baseImage_of s))
     = Throw Nullish ->
   error (fst (handleGenerate generateContent now_id now_ts s)) = None).
Proof.
  intros Ht. unfold handleGenerate, handleGenerate_begin.
  destruct (trim (prompt s)) eqn:E; [congruence|]. cbn -[generateImage].
  destruct (generateImage _ _ _) as [reqs settled]. cbn [snd fst].
  split; [|split; [|split]].
  - intros url ->. reflexivity.
  - intros err -> Hn. destruct err as [m|q|m|]; cbn; try reflexivity.
    + unfold or_else. destruct (truthy (Some m)) eqn:M; [exact M | reflexivity].
    + unfold or_else. destruct (truthy m) eqn:M; [exact M | reflexivity].
    + congruence.
  - intros m -> [-> | ->]; reflexivity.
  - intros ->. reflexivity.
Qed.

End PageExtras.

Section UploadsAndSelection.

Lemma baseImage_of_cases (s : AppState) :
  baseImage_of s = None \/ baseImage_of s = sourceImage s \/
  exists it, In it (iterations s) /\
             baseImage_of s = Some (DesignIteration.imageUrl it).
Proof.
  unfold baseImage_of.
  destruct (strict_eq (activeId s) (Some source) && truthy (sourceImage s));
    auto.
  destruct (truthy (activeId s)).
  - destruct (find_iteration (activeId s) (iterations s)) as [it|] eqn:E; auto.
    right; right. exists it. split; [|reflexivity].
    unfold find_iteration in E. apply find_some in E. tauto.
  - destruct (truthy (sourceImage s)); auto.
Qed.

Lemma decodable_boot : decodable boot.
Proof. split; simpl; constructor. Qed.

Lemma step_decodable (e : event) (p : Page) :
  (forall d, e = FileLoaded d -> is_data_url d) ->
  decodable p -> decodable (step e p).
Proof.
  intros Hup [Hsrc Hit Hfl].
  destruct e as [dataUrl| | |k|v| |k gc now_id now_ts]; cbn [step].
  - split; simpl; auto.
  - destruct (truthy _); [|split; assumption]. unfold clearSourceImage.
    destruct (strict_eq _ _); split; simpl; auto.
  - destruct (truthy _); split; assumption.
  - destruct (nth_error _ _); split; assumption.
  - split; assumption.
  - pose proof (handleGenerate_begin_store (ui p)) as (Hs & Hi & _).
    destruct (handleGenerate_begin (ui p)) as [s1 [c|]] eqn:E;
      cbn [fst] in Hs, Hi; split; cbn [ui inflight]; rewrite ?Hs, ?Hi; auto.
    constructor; [|assumption].
    apply handleGenerate_begin_call in E.
    destruct E as (_ & _ & _ & -> & _).
    destruct (baseImage_of_cases (ui p)) as [->|[->|(it & Hin & ->)]];
      simpl; auto.
    unfold generated in Hit. rewrite Forall_forall in Hit. apply Hit, Hin.
  - destruct (nth_error (inflight p) k) as [c|] eqn:E; [|split; assumption].
    assert (Hrest : Forall (fun c' => data_url_or_absent (call_baseImage c'))
                      (remove_nth k (inflight p))).
    { rewrite Forall_forall in *. intros c' H'. apply Hfl.
      eapply In_remove_nth; eassumption. }
    destruct (snd (generateImage gc (call_prompt c) (call_baseImage c)))
      as [url|[m|q|m|]] eqn:G; split; simpl; auto.
    constructor; [|assumption].
    simpl. eapply generateImage_data_url; eassumption.
Qed.

Lemma run_decodable (evs : list event) (p : Page) :
  uploads_data_urls evs -> decodable p -> decodable (run evs p).
Proof.
  revert p; induction evs as [|e evs IH]; intros p Hup H; simpl; auto.
  apply IH.
  - intros d Hd. apply Hup. right; exact Hd.
  - apply step_decodable; [|exact H].
    intros d ->. apply Hup. left; reflexivity.
Qed.

Lemma generateImage_submits (generateContent : endpoint)
    (prompt : jsstring) (baseImage : option jsstring) :
  data_url_or_absent baseImage ->
  exists ps,
    fst (generateImage generateContent prompt baseImage) = [the_request ps].
Proof.
  destruct baseImage as [u|]; simpl; intros H.
  - destruct (request_parts_data_url prompt u H) as (part & _ & E).
    unfold generateImage. rewrite E. eexists; reflexivity.
  - eexists; reflexivity.
Qed.

(** X14: an upload replaces the source image and selects it: whatever the
    state before, the uploaded image is the one on display and, unless it is
    the empty string, the base of the next generation; the iterations stay. *)
Theorem imageLoaded_active (dataUrl : jsstring) (s : AppState) :
  activeImageUrl (imageLoaded dataUrl s) = Some dataUrl /\
  (dataUrl <> [] -> baseImage_of (imageLoaded dataUrl s) = Some dataUrl) /\
  iterations (imageLoaded dataUrl s) = iterations s.
Proof.
  unfold activeImageUrl, baseImage_of, imageLoaded.
  cbn [activeId sourceImage iterations setActiveId setSourceImage].
  replace (strict_eq (Some source) (Some source)) with true
    by (symmetry; apply strict_eq_eq; reflexivity).
  split; [reflexivity|]. split; [|reflexivity].
  intros Hn. destruct dataUrl; [congruence | reflexivity].
Qed.

(** X15: clearing the source leaves the display alone while an iteration is
    selected; while the source is selected and iterations exist, the display
    moves to the image of the newest iteration. *)
Theorem clearSourceImage_display (evs : list event) :
  (forall a, activeId (ui (run evs boot)) = Some a -> a <> source ->
     activeImageUrl (clearSourceImage (ui (run evs boot)))
       = activeImageUrl (ui (run evs boot))) /\
  (forall newest older,
     activeId (ui (run evs boot)) = Some source ->
     iterations (ui (run evs boot)) = newest :: older ->
     activeImageUrl (clearSourceImage (ui (run evs boot)))
       = Some (DesignIteration.imageUrl newest)).
Proof.
  destruct (run_invariant evs boot invariant_boot) as [Hsel Hnum _ _].
  pose proof (stored_image evs) as Himg.
  set (s := ui (run evs boot)) in *.
  unfold selection_ok in Hsel. split.
  - intros a Ha Hns. rewrite Ha in Hsel.
    destruct Hsel as [[-> _]|Hin]; [congruence|].
    unfold clearSourceImage, activeImageUrl. rewrite Ha.
    replace (strict_eq (Some a) (Some source)) with false
      by (symmetry; apply strict_eq_neq; congruence).
    cbn [activeId sourceImage iterations setSourceImage].
    rewrite Ha.
    replace (strict_eq (Some a) (Some source)) with false
      by (symmetry; apply strict_eq_neq; congruence).
    destruct (find_iteration_in a _ Hin) as (it & Hf & _ & Hit).
    rewrite Hf. cbn [option_map].
    destruct (Himg it Hit) as (c & r & ->). reflexivity.
  - intros newest older Ha Hl.
    assert (Hid : DesignIteration.id newest <> source).
    { intros E. apply (numbered_not_source _ Hnum).
      rewrite Hl. left. exact E. }
    unfold clearSourceImage, activeImageUrl. rewrite Ha.
    replace (strict_eq (Some source) (Some source)) with true
      by (symmetry; apply strict_eq_eq; reflexivity).
    rewrite Hl.
    cbn [activeId sourceImage iterations setSourceImage setActiveId].
    replace (strict_eq (Some (DesignIteration.id newest)) (Some source))
      with false by (symmetry; apply strict_eq_neq; congruence).
    rewrite Hl, find_iteration_newest. cbn [option_map].
    destruct (Himg newest) as (c & r & ->); [rewrite Hl; left|]; reflexivity.
Qed.

(** X16: as long as every file read came out as a data URL, decoding the
    base image never fails: the generation the page would start now, and
    every generation still pending, submits its request to the endpoint. *)
Theorem uploads_decodable (evs : list event) :
  uploads_data_urls evs ->
  (forall generateContent,
     exists ps,
       fst (generateImage generateContent
              (prompt (ui (run evs boot))) (baseImage_of (ui (run evs boot))))
         = [the_request ps]) /\
  (forall c generateContent,
     In c (inflight (run evs boot)) ->
     exists ps,
       fst (generateImage generateContent (call_prompt c) (call_baseImage c))
         = [the_request ps]).
Proof.
  intros Hup.
  destruct (run_decodable evs boot Hup decodable_boot) as [Hsrc Hit Hfl].
  split.
  - intros gc. apply generateImage_submits.
    destruct (baseImage_of_cases (ui (run evs boot)))
      as [->|[->|(it & Hin & ->)]]; simpl; auto.
    unfold generated in Hit. rewrite Forall_forall in Hit. apply Hit, Hin.
  - intros c gc Hin. apply generateImage_submits.
    rewrite Forall_forall in Hfl. apply Hfl, Hin.
Qed.

(** X17: with the source selected and a source image whose text before the
    first comma holds no colon, [handleGenerate] submits nothing, shows a
    non-empty error, stores no iteration and ends idle. *)
Theorem handleGenerate_malformed_source (generateContent : endpoint)
    (now_id now_ts : Z) (s : AppState) (image : jsstring) :
  trim (prompt s) <> [] ->
  activeId s = Some source ->
  sourceImage s = Some image ->
  image <> [] ->
  ~ In colon (before comma image) ->
  snd (handleGenerate generateContent now_id now_ts s) = [] /\
  truthy (error (fst (handleGenerate generateContent now_id now_ts s)))
    = true /\
  iterations (fst (handleGenerate generateContent now_id now_ts s))
    = iterations s /\
  isGenerating (fst (handleGenerate generateContent now_id now_ts s)) = false.
Proof.
  intros Ht Ha Hs Hn Hc.
  assert (Hb : baseImage_of s = Some image).
  { unfold baseImage_of. rewrite Ha, Hs.
    replace (strict_eq (Some source) (Some source)) with true
      by (symmetry; apply strict_eq_eq; reflexivity).
    destruct image; [congruence | reflexivity]. }
  assert (Hg : generateImage generateContent (prompt s) (Some image)
               = ([], Throw (TypeError (lit "split")))).
  { unfold generateImage, request_parts.
    destruct image as [|c r]; [congruence|].
    rewrite (image_part_no_colon (c :: r) Hc). reflexivity. }
  unfold handleGenerate, handleGenerate_begin.
  destruct (trim (prompt s)) eqn:E; [congruence|].
  cbn -[generateImage]. rewrite Hb, Hg. cbn. auto.
Qed.

(** X18: while the ids are pairwise distinct - which distinct clock readings
    ensure - a click on an entry of the history strip puts that entry's
    image on display and makes it the base of the next generation. *)
Theorem click_shows_iteration (evs : list event) (k : nat)
    (it : DesignIteration.t) :
  NoDup (id_readings evs) ->
  nth_error (iterations (ui (run evs boot))) k = Some it ->
  activeImageUrl (ui (step (ClickIteration k) (run evs boot)))
    = Some (DesignIteration.imageUrl it) /\
  baseImage_of (ui (step (ClickIteration k) (run evs boot)))
    = Some (DesignIteration.imageUrl it).
Proof.
  intros Hnd Hk. cbn [step]. rewrite Hk. cbn [ui].
  pose proof (ids_NoDup evs Hnd) as Hids.
  destruct (run_invariant evs boot invariant_boot) as [_ Hnum _ _].
  assert (Hin : In it (iterations (ui (run evs boot))))
    by (eapply nth_error_In; eassumption).
  destruct (stored_image evs it Hin) as (c & r & Hu).
  assert (Hid : exists n, DesignIteration.id it = Number_toString n).
  { unfold numbered in Hnum. rewrite Forall_forall in Hnum. auto. }
  destruct Hid as (n & Hid).
  unfold activeImageUrl, baseImage_of.
  cbn [activeId sourceImage iterations setActiveId].
  replace (strict_eq (Some (DesignIteration.id it)) (Some source)) with false.
  2:{ symmetry. apply strict_eq_neq. rewrite Hid. intros H; inversion H.
      eapply Number_toString_not_source; eassumption. }
  rewrite (find_iteration_unique it _ Hids Hin). cbn [option_map andb].
  rewrite Hid at 1. rewrite Number_toString_truthy, Hu.
  split; reflexivity.
Qed.

(** X19: every iteration the page ever stores has a data URL as its image,
    a prompt that is not blank, and the decimal text of a clock reading as
    its id. *)
Theorem stored_iterations_well_formed (evs : list event)
    (it : DesignIteration.t) :
  In it (iterations (ui (run evs boot))) ->
  is_data_url (DesignIteration.imageUrl it) /\
  trim (DesignIteration.prompt it) <> [] /\
  exists n, In n (id_readings evs) /\
            DesignIteration.id it = Number_toString n.
Proof.
  intros Hin.
  pose proof (kept_iterations _ (run_kept evs boot kept_boot)) as H.
  rewrite Forall_forall in H. destruct (H it Hin) as (Hu & Hp & _).
  split; [exact Hu|]. split; [exact Hp|].
  assert (Hi : In (DesignIteration.id it) (ids (iterations (ui (run evs boot)))))
    by (apply in_map; exact Hin).
  apply run_ids in Hi. destruct Hi as [[]|Hi]. exact Hi.
Qed.

End UploadsAndSelection.

Lemma error_after_generation_witness :
  trim (prompt ready) <> [] /\
  snd (generateImage (fun _ => Throw Nullish) (prompt ready)
         (baseImage_of ready)) = Throw Nullish /\
  error (fst (handleGenerate (fun _ => Throw Nullish) 1000 1001 ready)) = None.
Proof.
  assert (T : trim (prompt ready) <> []) by (vm_compute; discriminate).
  assert (F : snd (generateImage (fun _ => Throw Nullish) (prompt ready)
                     (baseImage_of ready)) = Throw Nullish)
    by reflexivity.
  split; [exact T|]. split; [exact F|].
  exact (proj2 (proj2 (proj2 (error_after_generation (fun _ => Throw Nullish)
                                1000 1001 ready T))) F).
Defined.

Lemma uploads_decodable_witness :
  uploads_data_urls scenario /\
  forall generateContent,
    exists ps,
      fst (generateImage generateContent
             (prompt (ui (run scenario boot)))
             (baseImage_of (ui (run scenario boot))))
        = [the_request ps].
Proof.
  assert (U : uploads_data_urls scenario).
  { intros d H. simpl in H.
    repeat (destruct H as [H|H]; [try discriminate|]); [|destruct H].
    inversion H. eexists; reflexivity. }
  split; [exact U|].
  exact (proj1 (uploads_decodable scenario U)).
Defined.

Lemma handleGenerate_malformed_source_witness :
  trim (prompt malformed) <> [] /\
  activeId malformed = Some source /\
  sourceImage malformed = Some (lit "not-a-data-uri") /\
  lit "not-a-data-uri" <> [] /\
  ~ In colon (before comma (lit "not-a-data-uri")) /\
  snd (handleGenerate (replying two_images) 1000 1001 malformed) = [] /\
  truthy (error (fst (handleGenerate (replying two_images) 1000 1001 malformed)))
    = true /\
  iterations (fst (handleGenerate (replying two_images) 1000 1001 malformed))
    = iterations malformed /\
  isGenerating (fst (handleGenerate (replying two_images) 1000 1001 malformed))
    = false.
Proof.
  assert (H1 : trim (prompt malformed) <> []) by (vm_compute; discriminate).
  assert (H2 : activeId malformed = Some source) by reflexivity.
  assert (H3 : sourceImage malformed = Some (lit "not-a-data-uri"))
    by reflexivity.
  assert (H4 : lit "not-a-data-uri" <> []) by (vm_compute; discriminate).
  assert (H5 : ~ In colon (before comma (lit "not-a-data-uri"))) by absent.
  repeat (split; [assumption|]).
  exact (handleGenerate_malformed_source (replying two_images) 1000 1001
           malformed (lit "not-a-data-uri") H1 H2 H3 H4 H5).
Defined.

Lemma click_shows_iteration_witness :
  NoDup (id_readings scenario) /\
  nth_error (iterations (ui (run scenario boot))) 1 = Some iterationB /\
  activeImageUrl (ui (step (ClickIteration 1) (run scenario boot)))
    = Some (DesignIteration.imageUrl iterationB) /\
  baseImage_of (ui (step (ClickIteration 1) (run scenario boot)))
    = Some (DesignIteration.imageUrl iterationB).
Proof.
  assert (D : NoDup (id_readings scenario)).
  { cbn. constructor; [intros [H|[]]; discriminate|].
    constructor; [intros []|constructor]. }
  assert (K : nth_error (iterations (ui (run scenario boot))) 1
              = Some iterationB) by reflexivity.
  split; [exact D|]. split; [exact K|].
  exact (click_shows_iteration scenario 1 iterationB D K).
Defined.

Lemma stored_iterations_well_formed_witness :
  In iterationB (iterations (ui (run scenario boot))) /\
  is_data_url (DesignIteration.imageUrl iterationB) /\
  trim (DesignIteration.prompt iterationB) <> [] /\
  exists n, In n (id_readings scenario) /\
            DesignIteration.id iterationB = Number_toString n.
Proof.
  assert (H : In iterationB (iterations (ui (run scenario boot))))
    by (right; left; reflexivity).
  split; [exact H|].
  exact (stored_iterations_well_formed scenario iterationB H).
Defined.

Section Canvas.

(** Once an iteration is stored, something is selected. *)
Lemma step_selected (e : event) (p : Page) :
  iterations (ui p) = [] \/ activeId (ui p) <> None ->
  iterations (ui (step e p)) = [] \/ activeId (ui (step e p)) <> None.
Proof.
  intros H.
  destruct e as [dataUrl| | |k|v| |k gc now_id now_ts]; cbn [step].
  - right; simpl; discriminate.
  - destruct (truthy _); [|exact H]. unfold clearSourceImage.
    destruct (strict_eq _ _); [|exact H].
    destruct (iterations (ui p)) eqn:E;
      [left; simpl; exact E | right; simpl; discriminate].
  - destruct (truthy _); [|exact H]. right; simpl; discriminate.
  - destruct (nth_error _ _); [|exact H]. right; simpl; discriminate.
  - exact H.
  - pose proof (handleGenerate_begin_store (ui p)) as (_ & Hi & Ha).
    destruct (handleGenerate_begin (ui p)) as [s1 [c|]];
      cbn [fst ui] in *; rewrite Hi, Ha; exact H.
  - destruct (nth_error _ _) as [c|]; [|exact H].
    destruct (snd _) as [url|[m|q|m|]];
      [right; simpl; discriminate | exact H ..].
Qed.

Lemma run_selected (evs : list event) (p : Page) :
  iterations (ui p) = [] \/ activeId (ui p) <> None ->
  iterations (ui (run evs p)) = [] \/ activeId (ui (run evs p)) <> None.
Proof.
  revert p; induction evs as [|e evs IH]; intros p H; simpl; auto.
  apply IH, step_selected, H.
Qed.

(** X20: whenever the button reads "Edit Image", a stored iteration is
    selected, and its image is both on display and the base of the
    generation the button starts. *)
Theorem buttonLabel_edit (evs : list event) :
  buttonLabel (ui (run evs boot)) = lit "Edit Image" ->
  exists it,
    In it (iterations (ui (run evs boot))) /\
    activeId (ui (run evs boot)) = Some (DesignIteration.id it) /\
    activeImageUrl (ui (run evs boot)) = Some (DesignIteration.imageUrl it) /\
    baseImage_of (ui (run evs boot)) = Some (DesignIteration.imageUrl it).
Proof.
  destruct (run_invariant evs boot invariant_boot) as [Hsel _ _ _].
  pose proof (stored_image evs) as Himg.
  set (s := ui (run evs boot)) in *.
  unfold selection_ok in Hsel. unfold buttonLabel.
  destruct (activeId s) as [a|] eqn:Ea; [|discriminate].
  destruct (strict_eq (Some a) (Some source)) eqn:Es.
  - rewrite andb_false_r. discriminate.
  - intros _. apply strict_eq_neq in Es.
    destruct Hsel as [[-> _]|Hin]; [congruence|].
    destruct (find_iteration_in a _ Hin) as (it & Hf & Hid & Hit).
    exists it. split; [exact Hit|]. split; [congruence|].
    destruct (Himg it Hit) as (c & r & Hu).
    assert (Ha : truthy (Some a) = true).
    { destruct (run_invariant evs boot invariant_boot) as [_ Hnum _ _].
      fold s in Hnum. unfold numbered in Hnum. rewrite Forall_forall in Hnum.
      destruct (Hnum it Hit) as (n & Hn). rewrite <- Hid, Hn.
      apply Number_toString_truthy. }
    unfold activeImageUrl, baseImage_of. rewrite Ea.
    replace (strict_eq (Some a) (Some source)) with false
      by (symmetry; apply strict_eq_neq; exact Es).
    rewrite Hf, Ha. cbn [option_map andb]. rewrite Hu. split; reflexivity.
Qed.

(** X21: as long as every file read came out as a data URL, the canvas
    never falls back to the placeholder once an iteration is stored. *)
Theorem canvas_never_empty_after_generation (evs : list event) :
  uploads_data_urls evs ->
  iterations (ui (run evs boot)) <> [] ->
  canvasShowsImage (ui (run evs boot)) = true.
Proof.
  intros Hup Hne.
  destruct (run_invariant evs boot invariant_boot) as [Hsel Hnum _ _].
  destruct (run_decodable evs boot Hup decodable_boot) as [Hsrc _ _].
  pose proof (stored_image evs) as Himg.
  destruct (run_selected evs boot (or_introl eq_refl)) as [E|Hact];
    [congruence|].
  set (s := ui (run evs boot)) in *.
  unfold selection_ok in Hsel. unfold canvasShowsImage, activeImageUrl.
  destruct (activeId s) as [a|] eqn:Ea; [|congruence].
  destruct Hsel as [[-> Hs]|Hin].
  - replace (strict_eq (Some source) (Some source)) with true
      by (symmetry; apply strict_eq_eq; reflexivity).
    destruct (sourceImage s) as [u|]; [|congruence].
    apply data_url_truthy, Hsrc.
  - assert (Hns : a <> source).
    { intros ->. exact (numbered_not_source _ Hnum Hin). }
    replace (strict_eq (Some a) (Some source)) with false
      by (symmetry; apply strict_eq_neq; congruence).
    destruct (find_iteration_in a _ Hin) as (it & Hf & _ & Hit).
    rewrite Hf. cbn [option_map].
    destruct (Himg it Hit) as (c & r & ->). reflexivity.
Qed.

End Canvas.

Lemma buttonLabel_edit_witness :
  buttonLabel (ui (run scenario boot)) = lit "Edit Image" /\
  exists it,
    In it (iterations (ui (run scenario boot))) /\
    activeId (ui (run scenario boot)) = Some (DesignIteration.id it) /\
    activeImageUrl (ui (run scenario boot))
      = Some (DesignIteration.imageUrl it) /\
    baseImage_of (ui (run scenario boot))
      = Some (DesignIteration.imageUrl it).
Proof.
  assert (L : buttonLabel (ui (run scenario boot)) = lit "Edit Image")
    by reflexivity.
  split; [exact L|].
  exact (buttonLabel_edit scenario L).
Defined.

Lemma canvas_never_empty_after_generation_witness :
  uploads_data_urls scenario /\
  iterations (ui (run scenario boot)) <> [] /\
  canvasShowsImage (ui (run scenario boot)) = true.
Proof.
  assert (U : uploads_data_urls scenario).
  { intros d H. simpl in H.
    repeat (destruct H as [H|H]; [try discriminate|]); [|destruct H].
    inversion H. eexists; reflexivity. }
  assert (N : iterations (ui (run scenario boot)) <> [])
    by (vm_compute; discriminate).
  split; [exact U|]. split; [exact N|].
  exact (canvas_never_empty_after_generation scenario U N).
Defined.

(* ================================================================= *)
(** ** The lineage of the stored iterations *)

Section Lineage.





End Lineage.


